(** * The user domain of divinity: validation and the user service

    A shallow embedding of [user.go]: the [User] record, [validateUser]
    with its e-mail pattern, the [UserStore] interface and the seven
    operations of [UserService], followed by the properties of the
    specification that concern them.

    Go strings are byte sequences and are modelled by [string] (a sequence
    of [ascii] bytes); a nil-able [error] is an [option error]; a nil-able
    [*User] is an [option User]. *)

From Stdlib Require Import String Ascii List Bool Arith ZArith Lia.
Import ListNotations.
Local Open Scope string_scope.

Set Implicit Arguments.

(** ** Go errors *)

(** An [error] value is either built by [errors.New], or is the sentinel
    [sql.ErrNoRows], or wraps another error (as [fmt.Errorf] does with
    the verb w).  Two calls of [errors.New] never yield the sentinel, even
    with the sentinel's text. *)
Inductive error : Type :=
| errors_New (text : string)
| sql_ErrNoRows
| fmt_Errorf_w (text : string) (cause : error).

(** [err.Error()]. *)
Definition Error (err : error) : string :=
  match err with
  | errors_New text => text
  | sql_ErrNoRows => "sql: no rows in result set"
  | fmt_Errorf_w text _ => text
  end.

(** [errors.Is(err, sql.ErrNoRows)]: the sentinel is searched along the
    chain of wrapped errors. *)
Fixpoint errors_Is_sql_ErrNoRows (err : error) : bool :=
  match err with
  | errors_New _ => false
  | sql_ErrNoRows => true
  | fmt_Errorf_w _ cause => errors_Is_sql_ErrNoRows cause
  end.

(** ** Strings *)

(** [s == ""]. *)
Definition is_empty (s : string) : bool :=
  match s with
  | EmptyString => true
  | String _ _ => false
  end.

(** ** Regular expressions

    The fragment of Go's [regexp] syntax that [validateUser] uses:
    character classes given by ranges, concatenation and repetition.
    [Void] and [Alt] are there for the derivatives.  The classes of the
    e-mail pattern hold ASCII characters only, so a byte of a multi-byte
    rune is in none of them and matching byte by byte agrees with
    matching rune by rune. *)
Module Regexp.

Inductive regexp : Type :=
| Void
| Eps
| Class (ranges : list (ascii * ascii))
| Cat (r1 r2 : regexp)
| Alt (r1 r2 : regexp)
| Star (r : regexp).

(** A literal character, [r+] and [r{n,}]. *)
Definition Lit (c : ascii) : regexp := Class [(c, c)].
Definition Plus (r : regexp) : regexp := Cat r (Star r).
Fixpoint AtLeast (n : nat) (r : regexp) : regexp :=
  match n with
  | O => Star r
  | S n' => Cat r (AtLeast n' r)
  end.

Definition in_range (c : ascii) (range : ascii * ascii) : bool :=
  let (lo, hi) := range in
  Nat.leb (nat_of_ascii lo) (nat_of_ascii c)
  && Nat.leb (nat_of_ascii c) (nat_of_ascii hi).

Definition in_class (ranges : list (ascii * ascii)) (c : ascii) : bool :=
  existsb (in_range c) ranges.

Fixpoint nullable (r : regexp) : bool :=
  match r with
  | Void => false
  | Eps => true
  | Class _ => false
  | Cat r1 r2 => nullable r1 && nullable r2
  | Alt r1 r2 => nullable r1 || nullable r2
  | Star _ => true
  end.

Fixpoint deriv (c : ascii) (r : regexp) : regexp :=
  match r with
  | Void => Void
  | Eps => Void
  | Class ranges => if in_class ranges c then Eps else Void
  | Cat r1 r2 =>
      if nullable r1
      then Alt (Cat (deriv c r1) r2) (deriv c r2)
      else Cat (deriv c r1) r2
  | Alt r1 r2 => Alt (deriv c r1) (deriv c r2)
  | Star r1 => Cat (deriv c r1) (Star r1)
  end.

(** Whether the whole of [s] matches [r]: the pattern of the source is
    anchored by [^] and [$] (end of text, no multi-line flag). *)
Fixpoint matches (r : regexp) (s : string) : bool :=
  match s with
  | EmptyString => nullable r
  | String c s' => matches (deriv c r) s'
  end.

(** The language of a regular expression. *)
Inductive lang : regexp -> string -> Prop :=
| lang_Eps : lang Eps ""
| lang_Class ranges c :
    in_class ranges c = true -> lang (Class ranges) (String c "")
| lang_Cat r1 r2 s1 s2 :
    lang r1 s1 -> lang r2 s2 -> lang (Cat r1 r2) (s1 ++ s2)
| lang_Alt_l r1 r2 s : lang r1 s -> lang (Alt r1 r2) s
| lang_Alt_r r1 r2 s : lang r2 s -> lang (Alt r1 r2) s
| lang_Star_nil r : lang (Star r) ""
| lang_Star_cons r s1 s2 :
    lang r s1 -> lang (Star r) s2 -> lang (Star r) (s1 ++ s2).

End Regexp.

(** ** The data model *)

(** [time.Time], as an instant counted from some epoch. *)
Definition Time : Type := Z.

Record User : Type := mkUser {
  ID : string;
  FirstName : string;
  LastName : string;
  Email : string;
  Password : string;
  CreatedAt : Time;
  UpdatedAt : Time
}.

(** Assignments to the fields of a record. *)
Definition set_ID (v : string) (u : User) : User :=
  mkUser v (FirstName u) (LastName u) (Email u) (Password u) (CreatedAt u) (UpdatedAt u).
Definition set_FirstName (v : string) (u : User) : User :=
  mkUser (ID u) v (LastName u) (Email u) (Password u) (CreatedAt u) (UpdatedAt u).
Definition set_LastName (v : string) (u : User) : User :=
  mkUser (ID u) (FirstName u) v (Email u) (Password u) (CreatedAt u) (UpdatedAt u).
Definition set_Email (v : string) (u : User) : User :=
  mkUser (ID u) (FirstName u) (LastName u) v (Password u) (CreatedAt u) (UpdatedAt u).
Definition set_Password (v : string) (u : User) : User :=
  mkUser (ID u) (FirstName u) (LastName u) (Email u) v (CreatedAt u) (UpdatedAt u).
Definition set_CreatedAt (v : Time) (u : User) : User :=
  mkUser (ID u) (FirstName u) (LastName u) (Email u) (Password u) v (UpdatedAt u).
Definition set_UpdatedAt (v : Time) (u : User) : User :=
  mkUser (ID u) (FirstName u) (LastName u) (Email u) (Password u) (CreatedAt u) v.

Module UpdateUserRequest.
Record t : Type := mk { FirstName : string; LastName : string }.
End UpdateUserRequest.

Module UpdatePasswordRequest.
Record t : Type := mk { Password : string }.
End UpdatePasswordRequest.

Module UpdateEmailRequest.
Record t : Type := mk { Email : string }.
End UpdateEmailRequest.

(** ** Validation *)

(** [^[a-zA-Z0-9._%+-]+@[a-zA-Z0-9.-]+\.[a-zA-Z]{2,}$] *)
Definition emailRegex : Regexp.regexp :=
  let az := ("a"%char, "z"%char) in
  let AZ := ("A"%char, "Z"%char) in
  let d09 := ("0"%char, "9"%char) in
  let one (c : ascii) := (c, c) in
  Regexp.Cat
    (Regexp.Plus
       (Regexp.Class [az; AZ; d09; one "."%char; one "_"%char; one "%"%char;
                      one "+"%char; one "-"%char]))
    (Regexp.Cat (Regexp.Lit "@"%char)
       (Regexp.Cat
          (Regexp.Plus (Regexp.Class [az; AZ; d09; one "."%char; one "-"%char]))
          (Regexp.Cat (Regexp.Lit "."%char)
             (Regexp.AtLeast 2 (Regexp.Class [az; AZ]))))).

(** [emailRegex.MatchString(s)]. *)
Definition MatchString (re : Regexp.regexp) (s : string) : bool :=
  Regexp.matches re s.

Definition validateUser (user : User) : option error :=
  if is_empty (Password user) then Some (errors_New "password is required")
  else if is_empty (FirstName user) then Some (errors_New "first name is required")
  else if is_empty (LastName user) then Some (errors_New "last name is required")
  else if is_empty (Email user) then Some (errors_New "email is required")
  else if negb (MatchString emailRegex (Email user))
       then Some (errors_New "invalid email format")
  else None.

(** ** The store interface *)

(** [context.Context]; the service hands it on to the store untouched. *)
Inductive Context : Type := context_Background.

(** [x != nil]. *)
Definition not_nil {A : Type} (x : option A) : bool :=
  match x with
  | Some _ => true
  | None => false
  end.

(** [errors.Is(err, sql.ErrNoRows)] on a nil-able error. *)
Definition errors_Is_ErrNoRows (err : option error) : bool :=
  match err with
  | Some e => errors_Is_sql_ErrNoRows e
  | None => false
  end.

(** The interface [UserStore], over the state [S] that an implementation
    keeps (the rows of the database for [UserPostgresStore]).  A method
    that returns a pointer to a [User] and an [error] returns a pair of
    nil-able values, since
    Go lets both, one or none of them be nil.  [Create] gets a pointer to
    the caller's record and may write to it ([UserPostgresStore] scans the
    new identifier into it), so it also returns the record as it leaves
    it.  The records returned by the lookups are fresh ones, as the ones
    [UserPostgresStore] scans a row into: the store keeps no alias to
    them. *)
Record UserStore (S : Type) : Type := mkUserStore {
  store_Create : Context -> User -> S -> (User * option error) * S;
  store_GetByID : Context -> string -> S -> (option User * option error) * S;
  store_GetByEmail : Context -> string -> S -> (option User * option error) * S;
  store_Update : Context -> User -> S -> option error * S;
  store_Delete : Context -> string -> S -> option error * S
}.

(** What surrounds the service: the wall clock ([time_Now_reading n] is
    what the [n]-th call of [time.Now] returns) and the outcome of
    [bcrypt.GenerateFromPassword] on a password and a cost (the salt it
    draws is part of the run that is considered). *)
Record Runtime : Type := mkRuntime {
  time_Now_reading : nat -> Time;
  bcrypt_GenerateFromPassword : string -> Z -> string * option error
}.

Definition bcrypt_DefaultCost : Z := 10.

(** The calls a service operation makes on its store, with their
    arguments. *)
Inductive StoreCall : Type :=
| call_Create (user : User)
| call_GetByID (id : string)
| call_GetByEmail (email : string)
| call_Update (user : User)
| call_Delete (id : string).

(** ** A monad for the effects of the service *)

(** The state an operation runs in: the state of the store, how many
    times the clock has been read, the calls made on the store so far
    and the records handed to the logger (oldest first). *)
Record World (S : Type) : Type := mkWorld {
  store_state : S;
  clock_reads : nat;
  calls : list StoreCall;
  logs : list (string * option error)
}.

Definition M (S A : Type) : Type := World S -> A * World S.

Definition ret {S A : Type} (a : A) : M S A := fun w => (a, w).

Definition bind {S A B : Type} (m : M S A) (k : A -> M S B) : M S B :=
  fun w => let (a, w') := m w in k a w'.

Declare Scope go_scope.
Delimit Scope go_scope with go.
Notation "x <- m ;; k" := (bind m (fun x => k))
  (at level 61, m at next level, right associativity) : go_scope.
Notation "' pat <- m ;; k" := (bind m (fun x => let 'pat := x in k))
  (at level 61, pat pattern, m at next level, right associativity) : go_scope.
Notation "m ;; k" := (bind m (fun _ => k))
  (at level 61, right associativity) : go_scope.
Local Open Scope go_scope.

Section UserService.

Variable S : Type.
Variable rt : Runtime.

(** [type UserService struct { userStore UserStore }] *)
Record UserService : Type := NewUserService { userStore : UserStore S }.

(** [time.Now()] *)
Definition time_Now : M S Time :=
  fun w =>
    (time_Now_reading rt (clock_reads w),
     mkWorld (store_state w) (Datatypes.S (clock_reads w)) (calls w) (logs w)).

(** [slog.Error(msg, "error", err)] *)
Definition slog_Error (msg : string) (err : option error) : M S unit :=
  fun w =>
    (tt, mkWorld (store_state w) (clock_reads w) (calls w) (logs w ++ [(msg, err)])).

(** A call on the store: it is recorded, and the store moves on. *)
Definition on_store {A : Type} (c : StoreCall) (f : S -> A * S) : M S A :=
  fun w =>
    let (a, st) := f (store_state w) in
    (a, mkWorld st (clock_reads w) (calls w ++ [c]) (logs w)).

Definition userStore_Create (s : UserService) (ctx : Context) (user : User) :=
  on_store (call_Create user) (store_Create (userStore s) ctx user).
Definition userStore_GetByID (s : UserService) (ctx : Context) (id : string) :=
  on_store (call_GetByID id) (store_GetByID (userStore s) ctx id).
Definition userStore_GetByEmail (s : UserService) (ctx : Context) (email : string) :=
  on_store (call_GetByEmail email) (store_GetByEmail (userStore s) ctx email).
Definition userStore_Update (s : UserService) (ctx : Context) (user : User) :=
  on_store (call_Update user) (store_Update (userStore s) ctx user).
Definition userStore_Delete (s : UserService) (ctx : Context) (id : string) :=
  on_store (call_Delete id) (store_Delete (userStore s) ctx id).

(** ** The operations of the service *)

(** [Create] writes to the record its caller points to; it returns the
    record as the call leaves it, next to the error. *)
Definition Create (s : UserService) (ctx : Context) (user : User)
  : M S (User * option error) :=
  now <- time_Now ;;
  let user := set_CreatedAt now user in
  now <- time_Now ;;
  let user := set_UpdatedAt now user in
  match validateUser user with
  | Some err => ret (user, Some err)
  | None =>
    let '(hashedPassword, err) :=
      bcrypt_GenerateFromPassword rt (Password user) bcrypt_DefaultCost in
    if not_nil err then
      slog_Error "failed to hash password" err ;;
      ret (user, Some (errors_New "an internal error occurred"))
    else
      let user := set_Password hashedPassword user in
      '(existingUser, err) <- userStore_GetByEmail s ctx (Email user) ;;
      if not_nil err && negb (errors_Is_ErrNoRows err) then
        slog_Error "failed to check for existing user" err ;;
        ret (user, Some (errors_New "an internal error occurred"))
      else if not_nil existingUser then
        ret (user, Some (errors_New "user with this email already exists"))
      else
        '(user, err) <- userStore_Create s ctx user ;;
        if not_nil err then
          slog_Error "failed to create user" err ;;
          ret (user, Some (errors_New "an internal error occurred"))
        else ret (user, None)
  end.

Definition GetByID (s : UserService) (ctx : Context) (id : string)
  : M S (option User * option error) :=
  '(user, err) <- userStore_GetByID s ctx id ;;
  if not_nil err then
    slog_Error "failed to get user" err ;;
    ret (None, Some (errors_New "an internal error occurred"))
  else if negb (not_nil user) then
    ret (None, Some (errors_New "user not found"))
  else ret (user, None).

Definition GetByEmail (s : UserService) (ctx : Context) (email : string)
  : M S (option User * option error) :=
  '(user, err) <- userStore_GetByEmail s ctx email ;;
  if not_nil err then
    slog_Error "failed to get user" err ;;
    ret (None, Some (errors_New "an internal error occurred"))
  else if negb (not_nil user) then
    ret (None, Some (errors_New "user not found"))
  else ret (user, None).

Definition Update (s : UserService) (ctx : Context) (id : string)
    (request : UpdateUserRequest.t) : M S (option error) :=
  '(existingUser, err) <- userStore_GetByID s ctx id ;;
  if not_nil err then
    slog_Error "failed to get user" err ;;
    ret (Some (errors_New "an internal error occurred"))
  else
    match existingUser with
    | None => ret (Some (errors_New "user not found"))
    | Some existingUser =>
      let existingUser :=
        if is_empty (UpdateUserRequest.FirstName request)
        then set_FirstName (UpdateUserRequest.FirstName request) existingUser
        else existingUser in
      let existingUser :=
        if is_empty (UpdateUserRequest.LastName request)
        then set_LastName (UpdateUserRequest.LastName request) existingUser
        else existingUser in
      now <- time_Now ;;
      let existingUser := set_UpdatedAt now existingUser in
      err <- userStore_Update s ctx existingUser ;;
      if not_nil err then
        slog_Error "failed to update user" err ;;
        ret (Some (errors_New "an internal error occurred"))
      else ret err
    end.

Definition UpdatePassword (s : UserService) (ctx : Context) (id : string)
    (request : UpdatePasswordRequest.t) : M S (option error) :=
  '(existingUser, err) <- userStore_GetByID s ctx id ;;
  if not_nil err then
    slog_Error "failed to get user" err ;;
    ret (Some (errors_New "an internal error occurred"))
  else
    match existingUser with
    | None => ret (Some (errors_New "user not found"))
    | Some existingUser =>
      if is_empty (UpdatePasswordRequest.Password request) then
        ret (Some (errors_New "password is required"))
      else
        let '(hashedPassword, err) :=
          bcrypt_GenerateFromPassword rt
            (UpdatePasswordRequest.Password request) bcrypt_DefaultCost in
        if not_nil err then
          slog_Error "failed to hash password" err ;;
          ret (Some (errors_New "an internal error occurred"))
        else
          let existingUser := set_Password hashedPassword existingUser in
          err <- userStore_Update s ctx existingUser ;;
          if not_nil err then
            slog_Error "failed to update user" err ;;
            ret (Some (errors_New "an internal error occurred"))
          else ret None
    end.

Definition UpdateEmail (s : UserService) (ctx : Context) (id : string)
    (request : UpdateEmailRequest.t) : M S (option error) :=
  '(existingUser, err) <- userStore_GetByID s ctx id ;;
  if not_nil err then
    slog_Error "failed to get user" err ;;
    ret (Some (errors_New "an internal error occurred"))
  else
    match existingUser with
    | None => ret (Some (errors_New "user not found"))
    | Some existingUser =>
      if is_empty (UpdateEmailRequest.Email request) then
        ret (Some (errors_New "email is required"))
      else
        '(existingEmailUser, err) <-
          userStore_GetByEmail s ctx (UpdateEmailRequest.Email request) ;;
        if not_nil err && negb (errors_Is_ErrNoRows err) then
          slog_Error "failed to check for existing user" err ;;
          ret (Some (errors_New "an internal error occurred"))
        else if not_nil existingEmailUser then
          ret (Some (errors_New "user with this email already exists"))
        else
          let existingUser :=
            set_Email (UpdateEmailRequest.Email request) existingUser in
          now <- time_Now ;;
          let existingUser := set_UpdatedAt now existingUser in
          err <- userStore_Update s ctx existingUser ;;
          if not_nil err then
            slog_Error "failed to update user" err ;;
            ret (Some (errors_New "an internal error occurred"))
          else ret None
    end.

Definition Delete (s : UserService) (ctx : Context) (id : string)
  : M S (option error) :=
  '(user, err) <- userStore_GetByID s ctx id ;;
  if not_nil err then
    slog_Error "failed to get user" err ;;
    ret (Some (errors_New "an internal error occurred"))
  else if negb (not_nil user) then
    ret (Some (errors_New "user not found"))
  else
    err <- userStore_Delete s ctx id ;;
    if not_nil err then
      slog_Error "failed to delete user" err ;;
      ret (Some (errors_New "an internal error occurred"))
    else ret None.

End UserService.

(** ** The store on PostgreSQL

    [UserPostgresStore] talks to the database through a connection pool
    of pgx.  The pool is a collaborator outside the repository; it is
    taken as an interface over the state [D] of the database, with the
    three ways the store uses it.  [pool_QueryRow_Scan_ID] is
    [pool.QueryRow(ctx, sql, args...).Scan(&user.ID)]: it returns the
    value written to the destination, if one was, and the error.
    [pool_QueryRow_Scan_User] is the same call scanning into the seven
    fields of a [var user User]: it returns the record as the scan
    leaves it, starting from the zero record.  [pool_Exec] is
    [pool.Exec(ctx, sql, args...)], whose command tag the store drops. *)
Inductive SqlValue : Type :=
| sql_text (s : string)
| sql_time (t : Time).

Record Pool (D : Type) : Type := mkPool {
  pool_QueryRow_Scan_ID :
    Context -> string -> list SqlValue -> D -> (option string * option error) * D;
  pool_QueryRow_Scan_User :
    Context -> string -> list SqlValue -> D -> (User * option error) * D;
  pool_Exec : Context -> string -> list SqlValue -> D -> option error * D
}.

(** [type PostgresDB struct { pool *pgxpool.Pool }] *)
Record PostgresDB (D : Type) : Type := mkPostgresDB { pool : Pool D }.

Module UserPostgresStore.

Section Store.

Variable D : Type.

(** [type UserPostgresStore struct { db *PostgresDB }] *)
Record t : Type := mk { db : PostgresDB D }.

Definition Create (s : t) (ctx : Context) (user : User)
  : D -> (User * option error) * D :=
  fun d =>
    let query := "
		INSERT INTO users (first_name, last_name, email, password, created_at, updated_at)
		VALUES ($1, $2, $3, $4, $5, $6)
		RETURNING id
	" in
    let '((id, err), d') :=
      pool_QueryRow_Scan_ID (pool (db s)) ctx query
        [sql_text (FirstName user); sql_text (LastName user);
         sql_text (Email user); sql_text (Password user);
         sql_time (CreatedAt user); sql_time (UpdatedAt user)] d in
    let user := match id with Some v => set_ID v user | None => user end in
    if not_nil err then ((user, err), d') else ((user, None), d').

Definition GetByID (s : t) (ctx : Context) (id : string)
  : D -> (option User * option error) * D :=
  fun d =>
    let query := "
		SELECT id, first_name, last_name, email, password, created_at, updated_at
		FROM users
		WHERE id = $1
	" in
    let '((user, err), d') :=
      pool_QueryRow_Scan_User (pool (db s)) ctx query [sql_text id] d in
    if not_nil err then ((None, err), d') else ((Some user, None), d').

Definition GetByEmail (s : t) (ctx : Context) (email : string)
  : D -> (option User * option error) * D :=
  fun d =>
    let query := "
		SELECT id, first_name, last_name, email, password, created_at, updated_at
		FROM users
		WHERE email = $1
	" in
    let '((user, err), d') :=
      pool_QueryRow_Scan_User (pool (db s)) ctx query [sql_text email] d in
    if not_nil err then ((None, err), d') else ((Some user, None), d').

Definition Update (s : t) (ctx : Context) (user : User) : D -> option error * D :=
  fun d =>
    let query := "
		UPDATE users
		SET first_name = $1, last_name = $2, email = $3, password = $4, updated_at = $5
		WHERE id = $6
	" in
    pool_Exec (pool (db s)) ctx query
      [sql_text (FirstName user); sql_text (LastName user);
       sql_text (Email user); sql_text (Password user);
       sql_time (UpdatedAt user); sql_text (ID user)] d.

Definition Delete (s : t) (ctx : Context) (id : string) : D -> option error * D :=
  fun d =>
    let query := "
		DELETE FROM users
		WHERE id = $1
	" in
    pool_Exec (pool (db s)) ctx query [sql_text id] d.

(** [UserPostgresStore] as a [UserStore]. *)
Definition store (s : t) : UserStore D :=
  mkUserStore (Create s) (GetByID s) (GetByEmail s) (Update s) (Delete s).

End Store.

End UserPostgresStore.

(** The service on the PostgreSQL store over a database [db]. *)
Definition postgres_service {D : Type} (db : PostgresDB D) : UserService D :=
  NewUserService (UserPostgresStore.store (UserPostgresStore.mk db)).

(** ** The e-mail pattern, in the words of the specification

    An address is [local-part@domain.tld]: the local part is made of
    letters, digits and the characters [. _ % + -]; the domain of letters,
    digits, [.] and [-]; the top-level segment of at least two letters. *)

Fixpoint all_chars (p : ascii -> bool) (s : string) : bool :=
  match s with
  | EmptyString => true
  | String c s' => p c && all_chars p s'
  end.

Definition between (lo hi : nat) (c : ascii) : bool :=
  Nat.leb lo (nat_of_ascii c) && Nat.leb (nat_of_ascii c) hi.

Definition is_letter (c : ascii) : bool :=
  between 97 122 c || between 65 90 c.

Definition is_digit (c : ascii) : bool := between 48 57 c.

Definition one_of (chars : string) (c : ascii) : bool :=
  existsb (Ascii.eqb c) (list_ascii_of_string chars).

Definition local_part_char (c : ascii) : bool :=
  is_letter c || is_digit c || one_of "._%+-" c.

Definition domain_char (c : ascii) : bool :=
  is_letter c || is_digit c || one_of ".-" c.

Definition well_formed_email (email : string) : Prop :=
  exists local domain tld : string,
    email = local ++ "@" ++ domain ++ "." ++ tld
    /\ local <> "" /\ all_chars local_part_char local = true
    /\ domain <> "" /\ all_chars domain_char domain = true
    /\ 2 <= String.length tld /\ all_chars is_letter tld = true.

(** ** The caller-visible errors *)

Definition caller_visible_messages : list string :=
  [ "password is required"; "first name is required"; "last name is required";
    "email is required"; "invalid email format";
    "user with this email already exists"; "user not found";
    "an internal error occurred" ].

(** The error, if there is one, was made by [errors.New] from one of the
    eight messages. *)
Definition caller_visible (err : option error) : Prop :=
  match err with
  | None => True
  | Some e => exists msg, In msg caller_visible_messages /\ e = errors_New msg
  end.

(** ** Stores and hashers that fail with other errors

    [relabel_store f store] behaves as [store] but fails with [f err]
    where [store] fails with [err]; likewise for the hasher of a
    run-time.  They serve to state that what the service returns does not
    depend on which errors its collaborators fail with. *)
Definition relabel_store {S : Type} (f : error -> error) (store : UserStore S)
  : UserStore S :=
  mkUserStore
    (fun ctx user st =>
       let '((user', err), st') := store_Create store ctx user st in
       ((user', option_map f err), st'))
    (fun ctx id st =>
       let '((user, err), st') := store_GetByID store ctx id st in
       ((user, option_map f err), st'))
    (fun ctx email st =>
       let '((user, err), st') := store_GetByEmail store ctx email st in
       ((user, option_map f err), st'))
    (fun ctx user st =>
       let '(err, st') := store_Update store ctx user st in
       (option_map f err, st'))
    (fun ctx id st =>
       let '(err, st') := store_Delete store ctx id st in
       (option_map f err, st')).

Definition relabel_runtime (f : error -> error) (rt : Runtime) : Runtime :=
  mkRuntime
    (time_Now_reading rt)
    (fun password cost =>
       let '(hash, err) := bcrypt_GenerateFromPassword rt password cost in
       (hash, option_map f err)).

(** What a caller observes of a run: the values returned, the state the
    store is left in and the calls made on it (the log is for operators). *)
Definition observed {S A : Type} (run : A * World S) : A * S * list StoreCall :=
  (fst run, store_state (snd run), calls (snd run)).

(** ** The store of the tests *)

(** [MockUserStore] of [user_test.go]: a method whose function field is
    nil returns nil (and leaves the record it is given alone). *)
Record MockUserStore : Type := mkMock {
  CreateFunc : option (Context -> User -> User * option error);
  GetByIDFunc : option (Context -> string -> option User * option error);
  GetByEmailFunc : option (Context -> string -> option User * option error);
  UpdateFunc : option (Context -> User -> option error);
  DeleteFunc : option (Context -> string -> option error)
}.

Definition mock (m : MockUserStore) : UserStore unit :=
  mkUserStore
    (fun ctx user st =>
       match CreateFunc m with
       | Some f => (f ctx user, st)
       | None => ((user, None), st)
       end)
    (fun ctx id st =>
       match GetByIDFunc m with
       | Some f => (f ctx id, st)
       | None => ((None, None), st)
       end)
    (fun ctx email st =>
       match GetByEmailFunc m with
       | Some f => (f ctx email, st)
       | None => ((None, None), st)
       end)
    (fun ctx user st =>
       match UpdateFunc m with
       | Some f => (f ctx user, st)
       | None => (None, st)
       end)
    (fun ctx id st =>
       match DeleteFunc m with
       | Some f => (f ctx id, st)
       | None => (None, st)
       end).

(** A run-time for examples: the clock reads 1000, 1001, ...; the hasher
    rejects a password of more than 72 bytes, as bcrypt does, and
    otherwise returns a string that stands for the hash. *)
Definition example_runtime : Runtime :=
  mkRuntime
    (fun n => (1000 + Z.of_nat n)%Z)
    (fun password cost =>
       if Nat.ltb 72 (String.length password)
       then ("", Some (errors_New "bcrypt: password length exceeds 72 bytes"))
       else ("$2a$10$" ++ password, None)).

(** The world an operation of an example starts in. *)
Definition fresh_world : World unit := mkWorld tt 0 [] [].

Definition john : User :=
  mkUser "1" "John" "Doe" "john.doe@example.com" "$2a$10$stored" 10%Z 20%Z.

(** A store that finds [john] under any identifier and accepts every
    update, and one that also finds him under any e-mail. *)
Definition store_with_john : MockUserStore :=
  mkMock None (Some (fun _ _ => (Some john, None))) None
         (Some (fun _ _ => None)) None.

Definition store_with_john_by_email : MockUserStore :=
  mkMock None (Some (fun _ _ => (Some john, None)))
         (Some (fun _ _ => (Some john, None)))
         (Some (fun _ _ => None)) None.



Definition store_failing : MockUserStore :=
  mkMock (Some (fun _ user => (user, Some (errors_New "random error"))))
         (Some (fun _ _ => (None, Some (errors_New "random error"))))
         (Some (fun _ _ => (None, Some (errors_New "random error"))))
         (Some (fun _ _ => Some (errors_New "random error")))
         (Some (fun _ _ => Some (errors_New "random error"))).

(** Replaces every error but [sql.ErrNoRows] and what wraps it. *)
Definition redact (err : error) : error :=
  if errors_Is_sql_ErrNoRows err then sql_ErrNoRows else errors_New "redacted".

(** A record that passes validation, and one whose password has 73
    bytes. *)
Definition john_doe : User :=
  mkUser "" "John" "Doe" "john.doe@example.com" "password" 0%Z 0%Z.

Definition long_password : string :=
  "0123456789012345678901234567890123456789012345678901234567890123456789012".

Definition john_long : User := set_Password long_password john_doe.

(** ** Two sentences of the specification, as they are written *)

(** "UpdateEmail with an email already used by a different user returns
    [user with this email already exists]; with the same/no conflicting
    user it persists successfully and returns no error": when the loaded
    record exists, the lookup by e-mail gives no user or the user that is
    being updated, and the store accepts updates, the record is persisted
    with the new e-mail and no error is returned; the error is returned
    only if the lookup gives a user with another identifier. *)
Definition UpdateEmail_spares_same_user {S : Type}
    (rt : Runtime) (s : UserService S) (ctx : Context) (id : string)
    (request : UpdateEmailRequest.t) (w : World S) : Prop :=
  forall existing st1 holder st2,
    UpdateEmailRequest.Email request <> "" ->
    store_GetByID (userStore s) ctx id (store_state w)
    = ((Some existing, None), st1) ->
    store_GetByEmail (userStore s) ctx (UpdateEmailRequest.Email request) st1
    = ((holder, None), st2) ->
    let result := UpdateEmail rt s ctx id request w in
    ((holder = None \/ exists user, holder = Some user /\ ID user = ID existing) ->
     (forall user st, fst (store_Update (userStore s) ctx user st) = None) ->
     fst result = None
     /\ exists persisted,
          In (call_Update persisted) (calls (snd result))
          /\ Email persisted = UpdateEmailRequest.Email request)
    /\ (fst result = Some (errors_New "user with this email already exists") ->
        exists user, holder = Some user /\ ID user <> ID existing).

(** "Create with a store that reports an existing user for the given email
    returns [user with this email already exists] and does not call store
    Create", for every record that passes validation. *)
Definition Create_rejects_existing_email {S : Type}
    (rt : Runtime) (s : UserService S) (ctx : Context) (user : User)
    (w : World S) : Prop :=
  validateUser user = None ->
  (exists existing st,
     store_GetByEmail (userStore s) ctx (Email user) (store_state w)
     = ((Some existing, None), st)) ->
  snd (fst (Create rt s ctx user w))
  = Some (errors_New "user with this email already exists")
  /\ forall created, ~ In (call_Create created) (calls (snd (Create rt s ctx user w))).

(** ** What an operation adds to the calls and to the log *)

(** The calls an operation made on the store, and the records it handed
    to the logger, between the worlds [w] and [w']. *)
Definition calls_made {S : Type} (w w' : World S) : list StoreCall :=
  skipn (List.length (calls w)) (calls w').

Definition logs_made {S : Type} (w w' : World S) : list (string * option error) :=
  skipn (List.length (logs w)) (logs w').

(** The calls that ask the store to change what it holds. *)
Definition is_write (c : StoreCall) : bool :=
  match c with
  | call_Create _ | call_Update _ | call_Delete _ => true
  | call_GetByID _ | call_GetByEmail _ => false
  end.

Definition no_write (l : list StoreCall) : Prop :=
  forallb (fun c => negb (is_write c)) l = true.

(** What a caller can tell about the writes from the result of an
    operation that ran from [w] to [w']: after a nil result, one write
    was made, as the last call; after an error other than [an internal
    error occurred], none was; and in no case is there more than one
    write, or a call after it. *)
Definition writes_as_reported {S : Type}
    (w : World S) (result : option error) (w' : World S) : Prop :=
  (result = None ->
   exists l c, calls_made w w' = (l ++ [c])%list /\ no_write l /\ is_write c = true)
  /\ (result <> None ->
      result <> Some (errors_New "an internal error occurred") ->
      no_write (calls_made w w'))
  /\ (no_write (calls_made w w')
      \/ exists l c,
           calls_made w w' = (l ++ [c])%list /\ no_write l /\ is_write c = true).


(** ** Databases for examples *)

(** The error of a query that finds no row, as the driver words it and
    wrapping the sentinel of [database/sql]. *)
Definition no_rows : error := fmt_Errorf_w "no rows in result set" sql_ErrNoRows.

Definition zero_User : User := mkUser "" "" "" "" "" 0%Z 0%Z.

(** A database without users that accepts every statement and numbers
    the inserted row 7, and one that fails at every call (and writes
    [partial] to the destination before failing). *)
Definition empty_db : PostgresDB unit :=
  mkPostgresDB
    (mkPool
       (fun _ _ _ d => ((Some "7", None), d))
       (fun _ _ _ d => ((zero_User, Some no_rows), d))
       (fun _ _ _ d => (None, d))).

Definition broken_db : PostgresDB unit :=
  mkPostgresDB
    (mkPool
       (fun _ _ _ d => ((Some "partial", Some (errors_New "connection refused")), d))
       (fun _ _ _ d => ((zero_User, Some (errors_New "connection refused")), d))
       (fun _ _ _ d => (Some (errors_New "connection refused"), d))).

(** ** Letter case *)

(** ASCII upper-case letters to lower case, other bytes unchanged. *)
Definition to_lower (c : ascii) : ascii :=
  let n := nat_of_ascii c in
  if Nat.leb 65 n && Nat.leb n 90 then ascii_of_nat (n + 32) else c.

Fixpoint map_string (f : ascii -> ascii) (s : string) : string :=
  match s with
  | EmptyString => EmptyString
  | String c s' => String (f c) (map_string f s')
  end.

Fixpoint count_char (c : ascii) (s : string) : nat :=
  match s with
  | EmptyString => 0
  | String c' s' => (if Ascii.eqb c c' then 1 else 0) + count_char c s'
  end.

(** [f] maps no character into or out of a class of [r]. *)
Fixpoint class_invariant (f : ascii -> ascii) (r : Regexp.regexp) : Prop :=
  match r with
  | Regexp.Void | Regexp.Eps => True
  | Regexp.Class ranges =>
      forall c, Regexp.in_class ranges (f c) = Regexp.in_class ranges c
  | Regexp.Cat r1 r2 | Regexp.Alt r1 r2 =>
      class_invariant f r1 /\ class_invariant f r2
  | Regexp.Star r1 => class_invariant f r1
  end.

(** * Properties *)

(** ** Strings *)

Lemma is_empty_true (s : string) : is_empty s = true <-> s = "".
Proof. destruct s; simpl; split; congruence. Qed.

Lemma is_empty_false (s : string) : is_empty s = false <-> s <> "".
Proof. destruct s; simpl; split; congruence. Qed.

Lemma append_eq_empty (s1 s2 : string) : s1 ++ s2 = "" -> s1 = "" /\ s2 = "".
Proof. destruct s1; simpl; [auto | discriminate]. Qed.

(** ** The matcher decides the language of a regular expression *)

Module RegexpFacts.
Import Regexp.

Lemma lang_empty_nullable (r : regexp) (s : string) :
  lang r s -> s = "" -> nullable r = true.
Proof.
  induction 1 as [ | rs c Hc | r1 r2 s1 s2 H1 IH1 H2 IH2 | r1 r2 s H IH
                 | r1 r2 s H IH | r | r s1 s2 H1 IH1 H2 IH2 ]; intros Hs; simpl.
  - reflexivity.
  - discriminate.
  - apply append_eq_empty in Hs as [-> ->]. now rewrite IH1, IH2.
  - now rewrite IH.
  - rewrite IH by assumption. apply orb_true_r.
  - reflexivity.
  - reflexivity.
Qed.

Lemma nullable_lang (r : regexp) : nullable r = true <-> lang r "".
Proof.
  split.
  - induction r as [ | | rs | r1 IH1 r2 IH2 | r1 IH1 r2 IH2 | r IH ]; simpl; intros H.
    + discriminate.
    + constructor.
    + discriminate.
    + apply andb_true_iff in H as [H1 H2].
      change (lang (Cat r1 r2) ("" ++ "")). constructor; auto.
    + apply orb_true_iff in H as [H | H];
        [apply lang_Alt_l | apply lang_Alt_r]; auto.
    + constructor.
  - intros H. now apply lang_empty_nullable with (s := "").
Qed.

Lemma deriv_sound (c : ascii) (r : regexp) :
  forall s, lang (deriv c r) s -> lang r (String c s).
Proof.
  induction r as [ | | rs | r1 IH1 r2 IH2 | r1 IH1 r2 IH2 | r IH ];
    simpl; intros s H.
  - inversion H.
  - inversion H.
  - destruct (in_class rs c) eqn:Hc; inversion H; subst. now constructor.
  - assert (Hcat : forall s', lang (Cat (deriv c r1) r2) s' ->
                              lang (Cat r1 r2) (String c s')).
    { intros s' H'. inversion H'; subst.
      change (lang (Cat r1 r2) (String c s1 ++ s2)). constructor; auto. }
    destruct (nullable r1) eqn:Hn.
    + inversion H; subst; [now apply Hcat | ].
      change (lang (Cat r1 r2) ("" ++ String c s)).
      constructor; [now apply nullable_lang | auto].
    + now apply Hcat.
  - inversion H; subst; [apply lang_Alt_l | apply lang_Alt_r]; auto.
  - inversion H; subst.
    change (lang (Star r) (String c s1 ++ s2)). constructor; auto.
Qed.

Lemma deriv_complete (c : ascii) (r : regexp) (s' : string) :
  lang r s' -> forall s, s' = String c s -> lang (deriv c r) s.
Proof.
  induction 1 as [ | rs c' Hc | r1 r2 s1 s2 H1 IH1 H2 IH2 | r1 r2 s0 H IH
                 | r1 r2 s0 H IH | r | r s1 s2 H1 IH1 H2 IH2 ]; intros s Hs; simpl.
  - discriminate.
  - injection Hs as -> <-. rewrite Hc. constructor.
  - destruct s1 as [ | c1 s1 ]; simpl in Hs.
    + subst s2. apply lang_empty_nullable with (s := "") in H1; [ | reflexivity ].
      rewrite H1. apply lang_Alt_r. now apply IH2.
    + injection Hs as -> <-.
      assert (lang (Cat (deriv c r1) r2) (s1 ++ s2))
        by (constructor; [now apply IH1 | assumption]).
      destruct (nullable r1); [now apply lang_Alt_l | assumption].
  - apply lang_Alt_l. now apply IH.
  - apply lang_Alt_r. now apply IH.
  - discriminate.
  - destruct s1 as [ | c1 s1 ]; simpl in Hs.
    + now apply IH2.
    + injection Hs as -> <-. constructor; [now apply IH1 | assumption].
Qed.

Theorem matches_lang (r : regexp) (s : string) :
  matches r s = true <-> lang r s.
Proof.
  revert r. induction s as [ | c s IH ]; intros r; simpl.
  - apply nullable_lang.
  - rewrite IH. split.
    + apply deriv_sound.
    + intros H. now apply deriv_complete with (s' := String c s).
Qed.

(** *** Languages of the shapes the e-mail pattern is made of *)

Lemma all_chars_append (p : ascii -> bool) (s1 s2 : string) :
  all_chars p (s1 ++ s2) = all_chars p s1 && all_chars p s2.
Proof.
  induction s1 as [ | c s1 IH ]; simpl; [reflexivity | ].
  now rewrite IH, andb_assoc.
Qed.

Lemma all_chars_ext (p q : ascii -> bool) (s : string) :
  (forall c, p c = q c) -> all_chars p s = all_chars q s.
Proof. intros E. induction s as [ | c s IH ]; simpl; congruence. Qed.

Lemma lang_Cat_iff (r1 r2 : regexp) (s : string) :
  lang (Cat r1 r2) s <-> exists s1 s2, s = s1 ++ s2 /\ lang r1 s1 /\ lang r2 s2.
Proof.
  split.
  - intros H. inversion H; subst. eauto.
  - intros (s1 & s2 & -> & H1 & H2). now constructor.
Qed.

Lemma lang_Class_iff (rs : list (ascii * ascii)) (s : string) :
  lang (Class rs) s <-> exists c, s = String c "" /\ in_class rs c = true.
Proof.
  split.
  - intros H. inversion H; subst. eauto.
  - intros (c & -> & H). now constructor.
Qed.

Lemma in_class_single (c c' : ascii) : in_class [(c, c)] c' = true <-> c' = c.
Proof.
  unfold in_class, in_range. simpl. rewrite orb_false_r, andb_true_iff.
  rewrite !Nat.leb_le. split.
  - intros [H1 H2].
    rewrite <- (ascii_nat_embedding c), <- (ascii_nat_embedding c').
    f_equal. lia.
  - intros ->. lia.
Qed.

Lemma lang_Lit_iff (c : ascii) (s : string) : lang (Lit c) s <-> s = String c "".
Proof.
  unfold Lit. rewrite lang_Class_iff. split.
  - intros (c' & -> & H). apply in_class_single in H. now subst.
  - intros ->. exists c. split; [reflexivity | now apply in_class_single].
Qed.

Lemma lang_Star_Class_all (rs : list (ascii * ascii)) (r : regexp) (s : string) :
  lang r s -> r = Star (Class rs) -> all_chars (in_class rs) s = true.
Proof.
  induction 1 as [ | | | | | | r s1 s2 H1 _ H2 IH2 ]; intros E; try discriminate.
  - reflexivity.
  - injection E as ->. inversion H1; subst. simpl.
    rewrite IH2 by reflexivity. now rewrite andb_true_r.
Qed.

Lemma lang_Star_Class_iff (rs : list (ascii * ascii)) (s : string) :
  lang (Star (Class rs)) s <-> all_chars (in_class rs) s = true.
Proof.
  split.
  - intros H. now apply lang_Star_Class_all with (r := Star (Class rs)).
  - induction s as [ | c s IH ]; simpl; intros H.
    + constructor.
    + apply andb_true_iff in H as [Hc Hs].
      change (lang (Star (Class rs)) (String c "" ++ s)).
      constructor; [now constructor | auto].
Qed.

Lemma lang_AtLeast_Class_iff (n : nat) (rs : list (ascii * ascii)) (s : string) :
  lang (AtLeast n (Class rs)) s
  <-> n <= String.length s /\ all_chars (in_class rs) s = true.
Proof.
  revert s. induction n as [ | n IH ]; intros s; simpl.
  - rewrite lang_Star_Class_iff. split; [intros H; split; [lia | easy] | easy].
  - rewrite lang_Cat_iff. split.
    + intros (s1 & s2 & -> & H1 & H2).
      apply lang_Class_iff in H1 as (c & -> & Hc). apply IH in H2 as [Hn Ha].
      simpl. rewrite Hc, Ha. split; [lia | reflexivity].
    + intros [Hn Ha]. destruct s as [ | c s ]; simpl in *; [lia | ].
      apply andb_true_iff in Ha as [Hc Ha].
      exists (String c ""), s. repeat split.
      * now constructor.
      * apply IH. split; [lia | assumption].
Qed.

Lemma lang_Plus_Class_iff (rs : list (ascii * ascii)) (s : string) :
  lang (Plus (Class rs)) s <-> s <> "" /\ all_chars (in_class rs) s = true.
Proof.
  change (Plus (Class rs)) with (AtLeast 1 (Class rs)).
  rewrite lang_AtLeast_Class_iff.
  destruct s; simpl; split; intros [H1 H2]; split; (congruence || lia).
Qed.

End RegexpFacts.

(** ** Validation *)

Section Validation.
Import Regexp RegexpFacts.

Lemma local_class_spec (c : ascii) :
  in_class [("a", "z"); ("A", "Z"); ("0", "9"); (".", "."); ("_", "_");
            ("%", "%"); ("+", "+"); ("-", "-")]%char c = local_part_char c.
Proof. destruct c as [[] [] [] [] [] [] [] []]; reflexivity. Qed.

Lemma domain_class_spec (c : ascii) :
  in_class [("a", "z"); ("A", "Z"); ("0", "9"); (".", "."); ("-", "-")]%char c
  = domain_char c.
Proof. destruct c as [[] [] [] [] [] [] [] []]; reflexivity. Qed.

Lemma letter_class_spec (c : ascii) :
  in_class [("a", "z"); ("A", "Z")]%char c = is_letter c.
Proof. destruct c as [[] [] [] [] [] [] [] []]; reflexivity. Qed.

(** The strings the pattern of the source matches are the addresses the
    specification describes. *)
Lemma emailRegex_lang (email : string) :
  lang emailRegex email <-> well_formed_email email.
Proof.
  unfold emailRegex, well_formed_email. cbv zeta. split.
  - intros H.
    apply lang_Cat_iff in H as (l & s1 & -> & Hl & H).
    apply lang_Cat_iff in H as (a & s2 & -> & Ha & H).
    apply lang_Cat_iff in H as (d & s3 & -> & Hd & H).
    apply lang_Cat_iff in H as (p & t & -> & Hp & Ht).
    apply lang_Lit_iff in Ha as ->. apply lang_Lit_iff in Hp as ->.
    apply lang_Plus_Class_iff in Hl as [Hl1 Hl2].
    apply lang_Plus_Class_iff in Hd as [Hd1 Hd2].
    apply lang_AtLeast_Class_iff in Ht as [Ht1 Ht2].
    rewrite (all_chars_ext _ _ _ local_class_spec) in Hl2.
    rewrite (all_chars_ext _ _ _ domain_class_spec) in Hd2.
    rewrite (all_chars_ext _ _ _ letter_class_spec) in Ht2.
    exists l, d, t. repeat split; assumption.
  - intros (l & d & t & -> & Hl1 & Hl2 & Hd1 & Hd2 & Ht1 & Ht2).
    rewrite <- (all_chars_ext _ _ _ local_class_spec) in Hl2.
    rewrite <- (all_chars_ext _ _ _ domain_class_spec) in Hd2.
    rewrite <- (all_chars_ext _ _ _ letter_class_spec) in Ht2.
    constructor; [now apply lang_Plus_Class_iff | ].
    change (lang (Cat (Lit "@") (Cat (Plus (Class [("a", "z"); ("A", "Z");
              ("0", "9"); (".", "."); ("-", "-")]%char)) (Cat (Lit ".")
              (AtLeast 2 (Class [("a", "z"); ("A", "Z")]%char)))))
              (String "@" "" ++ (d ++ (String "." "" ++ t)))).
    constructor; [now apply lang_Lit_iff | ].
    constructor; [now apply lang_Plus_Class_iff | ].
    constructor; [now apply lang_Lit_iff | ].
    now apply lang_AtLeast_Class_iff.
Qed.

Lemma MatchString_emailRegex (email : string) :
  MatchString emailRegex email = true <-> well_formed_email email.
Proof. unfold MatchString. now rewrite matches_lang, emailRegex_lang. Qed.

Lemma MatchString_emailRegex_false (email : string) :
  MatchString emailRegex email = false <-> ~ well_formed_email email.
Proof.
  rewrite <- MatchString_emailRegex.
  destruct (MatchString emailRegex email); split; congruence.
Qed.

(** C4. [validateUser] succeeds exactly when the five checks pass: the
    password, the first name, the last name and the e-mail are not empty
    and the e-mail has the shape [local-part@domain.tld]; otherwise it
    returns the message of the first check that fails, in the order
    password, first name, last name, e-mail present, e-mail format.  So an
    empty password yields [password is required] whatever the first name
    is. *)
Theorem validateUser_first_violation (user : User) :
  (validateUser user = None
   <-> Password user <> "" /\ FirstName user <> "" /\ LastName user <> ""
       /\ Email user <> "" /\ well_formed_email (Email user))
  /\ (Password user = ""
      -> validateUser user = Some (errors_New "password is required"))
  /\ (Password user <> "" -> FirstName user = ""
      -> validateUser user = Some (errors_New "first name is required"))
  /\ (Password user <> "" -> FirstName user <> "" -> LastName user = ""
      -> validateUser user = Some (errors_New "last name is required"))
  /\ (Password user <> "" -> FirstName user <> "" -> LastName user <> ""
      -> Email user = ""
      -> validateUser user = Some (errors_New "email is required"))
  /\ (Password user <> "" -> FirstName user <> "" -> LastName user <> ""
      -> Email user <> "" -> ~ well_formed_email (Email user)
      -> validateUser user = Some (errors_New "invalid email format")).
Proof.
  unfold validateUser.
  destruct (is_empty (Password user)) eqn:Hp;
    [apply is_empty_true in Hp | apply is_empty_false in Hp].
  { repeat split; try congruence; intros; tauto. }
  destruct (is_empty (FirstName user)) eqn:Hf;
    [apply is_empty_true in Hf | apply is_empty_false in Hf].
  { repeat split; try congruence; intros; tauto. }
  destruct (is_empty (LastName user)) eqn:Hl;
    [apply is_empty_true in Hl | apply is_empty_false in Hl].
  { repeat split; try congruence; intros; tauto. }
  destruct (is_empty (Email user)) eqn:He;
    [apply is_empty_true in He | apply is_empty_false in He].
  { repeat split; try congruence; intros; tauto. }
  destruct (MatchString emailRegex (Email user)) eqn:Hm;
    [apply MatchString_emailRegex in Hm | apply MatchString_emailRegex_false in Hm];
    simpl.
  - repeat split; try congruence; intros; tauto.
  - repeat split; try congruence; intros; tauto.
Qed.

Example validateUser_john :
  validateUser (mkUser "" "John" "Doe" "john.doe@example.com" "password" 0%Z 0%Z) = None.
Proof. vm_compute. reflexivity. Qed.

Example validateUser_bad_format :
  validateUser (mkUser "" "John" "Doe" "john.doe" "password" 0%Z 0%Z)
  = Some (errors_New "invalid email format").
Proof. vm_compute. reflexivity. Qed.

End Validation.

(** ** The service *)

(** Unfolding an operation down to the calls on the store. *)
Ltac run_service :=
  unfold Create, GetByID, GetByEmail, Update, UpdatePassword, UpdateEmail, Delete,
    userStore_Create, userStore_GetByID, userStore_GetByEmail, userStore_Update,
    userStore_Delete, on_store, time_Now, slog_Error, bind, ret;
  simpl.

(** Case analysis on the answer of the next call on the store. *)
Ltac store_answers :=
  match goal with
  | |- context [store_GetByID ?st ?ctx ?id ?x] =>
      destruct (store_GetByID st ctx id x) as [[? [?|]] ?] eqn:?
  | |- context [store_GetByEmail ?st ?ctx ?email ?x] =>
      destruct (store_GetByEmail st ctx email x) as [[? [?|]] ?] eqn:?
  | |- context [store_Create ?st ?ctx ?u ?x] =>
      destruct (store_Create st ctx u x) as [[? [?|]] ?] eqn:?
  | |- context [store_Update ?st ?ctx ?u ?x] =>
      destruct (store_Update st ctx u x) as [[?|] ?] eqn:?
  | |- context [store_Delete ?st ?ctx ?id ?x] =>
      destruct (store_Delete st ctx id x) as [[?|] ?] eqn:?
  end; simpl.

(** Case analysis on every answer an operation depends on. *)
Ltac service_case :=
  first
    [ store_answers
    | match goal with
      | |- context [bcrypt_GenerateFromPassword ?r ?p ?c] =>
          destruct (bcrypt_GenerateFromPassword r p c) as [? [?|]]
      | |- context [is_empty ?x] => destruct (is_empty x)
      | |- context [errors_Is_sql_ErrNoRows ?e] =>
          destruct (errors_Is_sql_ErrNoRows e)
      | |- context [not_nil ?o] => is_var o; destruct o
      | |- context [match ?o with Some _ => _ | None => _ end] =>
          is_var o; destruct o
      end ].

Ltac service_cases := simpl; repeat (service_case; simpl).

(** An error made from one of the eight messages is caller-visible. *)
Ltac visible :=
  simpl; eexists; (split; [ | reflexivity ]); simpl; tauto.

Section ServiceFacts.

Variable S : Type.
Variable rt : Runtime.
Variable s : UserService S.
Variable ctx : Context.

(** C6. [GetByID] and [GetByEmail] return [an internal error occurred]
    when the lookup of the store comes back with an error, [user not
    found] when it comes back with no error and no record, and otherwise
    the very record of the store with no error. *)
Theorem GetByID_GetByEmail_results (key : string) (w : World S) :
  match store_GetByID (userStore s) ctx key (store_state w) with
  | ((_, Some _), _) =>
      fst (GetByID s ctx key w)
      = (None, Some (errors_New "an internal error occurred"))
  | ((None, None), _) =>
      fst (GetByID s ctx key w) = (None, Some (errors_New "user not found"))
  | ((Some user, None), _) => fst (GetByID s ctx key w) = (Some user, None)
  end
  /\
  match store_GetByEmail (userStore s) ctx key (store_state w) with
  | ((_, Some _), _) =>
      fst (GetByEmail s ctx key w)
      = (None, Some (errors_New "an internal error occurred"))
  | ((None, None), _) =>
      fst (GetByEmail s ctx key w) = (None, Some (errors_New "user not found"))
  | ((Some user, None), _) => fst (GetByEmail s ctx key w) = (Some user, None)
  end.
Proof.
  split; run_service; store_answers;
    match goal with |- context [match ?u with Some _ => _ | None => _ end] =>
      destruct u end; reflexivity.
Qed.

(** C8. Whatever the identifier and the request, the record that [Update]
    hands to the store's [Update] has the e-mail and the password of the
    record that the store's [GetByID] returned; when no record was
    loaded, the store's [Update] is not called. *)
Theorem Update_keeps_email_and_password
    (id : string) (request : UpdateUserRequest.t) (w : World S) :
  match store_GetByID (userStore s) ctx id (store_state w) with
  | ((Some existing, None), _) =>
      exists persisted,
        calls (snd (Update rt s ctx id request w))
        = (calls w ++ [call_GetByID id; call_Update persisted])%list
        /\ Email persisted = Email existing
        /\ Password persisted = Password existing
  | _ =>
      calls (snd (Update rt s ctx id request w)) = (calls w ++ [call_GetByID id])%list
  end.
Proof.
  run_service.
  destruct (store_GetByID (userStore s) ctx id (store_state w))
    as [[[existing | ] [e | ]] st]; simpl; try reflexivity.
  store_answers;
    (eexists; split; [rewrite <- app_assoc; reflexivity | ]);
    destruct (is_empty (UpdateUserRequest.FirstName request)),
             (is_empty (UpdateUserRequest.LastName request)); split; reflexivity.
Qed.

(** The text of a caller-visible error is one of the eight messages. *)
Lemma caller_visible_Error (err : error) :
  caller_visible (Some err) -> In (Error err) caller_visible_messages.
Proof. intros (msg & Hmsg & ->). exact Hmsg. Qed.

Lemma validateUser_stamped (created updated : Time) (user : User) :
  validateUser (set_UpdatedAt updated (set_CreatedAt created user))
  = validateUser user.
Proof. reflexivity. Qed.

Lemma validateUser_caller_visible (user : User) :
  caller_visible (validateUser user).
Proof.
  unfold validateUser.
  destruct (is_empty (Password user)); [visible | ].
  destruct (is_empty (FirstName user)); [visible | ].
  destruct (is_empty (LastName user)); [visible | ].
  destruct (is_empty (Email user)); [visible | ].
  destruct (MatchString emailRegex (Email user)); simpl; [trivial | visible].
Qed.

(** The amended C5. When the record passes validation and the store's
    [GetByEmail] reports a user for its e-mail, [Create] never calls the
    store's [Create]: it makes the lookup and returns [user with this email
    already exists] when hashing the password succeeds, and it returns
    before the lookup when hashing fails. *)
Theorem Create_existing_email
    (user existing : User) (w : World S) (st : S) :
  validateUser user = None ->
  store_GetByEmail (userStore s) ctx (Email user) (store_state w)
  = ((Some existing, None), st) ->
  (snd (bcrypt_GenerateFromPassword rt (Password user) bcrypt_DefaultCost) = None ->
   snd (fst (Create rt s ctx user w))
   = Some (errors_New "user with this email already exists")
   /\ calls (snd (Create rt s ctx user w))
      = (calls w ++ [call_GetByEmail (Email user)])%list)
  /\ (snd (bcrypt_GenerateFromPassword rt (Password user) bcrypt_DefaultCost) <> None ->
      calls (snd (Create rt s ctx user w)) = calls w).
Proof.
  intros Hvalid Hlookup. run_service.
  rewrite validateUser_stamped, Hvalid.
  destruct (bcrypt_GenerateFromPassword rt (Password user) bcrypt_DefaultCost)
    as [hashedPassword [err | ]]; simpl.
  - split; [discriminate | reflexivity].
  - rewrite Hlookup. simpl. split; [auto | congruence].
Qed.

(** C9. [Create] writes to the record of its caller although it returns
    an error.  The two time stamps are set before validation runs, so a
    record that validation rejects carries them, and so does one whose
    password cannot be hashed.  Once validation and hashing pass, the password field holds the hash before the store is
    asked about the e-mail: after [user with this email already exists],
    and after a failed lookup, the record of the caller is the given one
    with the stamps and with the hash in place of the password; the
    store's [Create] is handed that same record, and after its failure
    the record is as the store left it. *)
Theorem Create_writes_to_caller_record (user : User) (w : World S) :
  let created := time_Now_reading rt (clock_reads w) in
  let updated := time_Now_reading rt (Datatypes.S (clock_reads w)) in
  let stamped := set_UpdatedAt updated (set_CreatedAt created user) in
  let result := fst (Create rt s ctx user w) in
  (forall err, validateUser user = Some err -> result = (stamped, Some err))
  /\
  (forall hashedPassword err,
     validateUser user = None ->
     bcrypt_GenerateFromPassword rt (Password user) bcrypt_DefaultCost
     = (hashedPassword, Some err) ->
     result = (stamped, Some (errors_New "an internal error occurred")))
  /\
  (forall hashedPassword,
     validateUser user = None ->
     bcrypt_GenerateFromPassword rt (Password user) bcrypt_DefaultCost
     = (hashedPassword, None) ->
     let hashed := set_Password hashedPassword stamped in
     Password hashed = hashedPassword
     /\ CreatedAt hashed = created /\ UpdatedAt hashed = updated
     /\ (snd result = Some (errors_New "user with this email already exists")
         -> fst result = hashed)
     /\ (forall existing err st,
           store_GetByEmail (userStore s) ctx (Email user) (store_state w)
           = ((existing, Some err), st) ->
           errors_Is_sql_ErrNoRows err = false ->
           result = (hashed, Some (errors_New "an internal error occurred")))
     /\ (forall err st left err' st',
           store_GetByEmail (userStore s) ctx (Email user) (store_state w)
           = ((None, err), st) ->
           err = None \/ errors_Is_ErrNoRows err = true ->
           store_Create (userStore s) ctx hashed st = ((left, Some err'), st') ->
           result = (left, Some (errors_New "an internal error occurred")))).
Proof.
  intros created updated stamped result. subst result. split; [ | split ].
  - intros err Hinvalid. run_service.
    now rewrite validateUser_stamped, Hinvalid.
  - intros hashedPassword err Hvalid Hhash. run_service.
    now rewrite validateUser_stamped, Hvalid, Hhash.
  - intros hashedPassword Hvalid Hhash hashed.
    split; [reflexivity | ]. split; [reflexivity | ]. split; [reflexivity | ].
    run_service. rewrite validateUser_stamped, Hvalid, Hhash. simpl.
    fold created updated stamped hashed.
    split; [ | split ].
    + store_answers.
      * destruct (errors_Is_sql_ErrNoRows e); simpl; [ | discriminate ].
        destruct o; simpl; [reflexivity | ].
        store_answers; discriminate.
      * destruct o; simpl; [reflexivity | ].
        store_answers; discriminate.
    + intros existing err st Hlookup Hother.
      rewrite Hlookup. simpl. now rewrite Hother.
    + intros err st left err' st' Hlookup Habsent Hcreate.
      rewrite Hlookup. simpl.
      assert (Hgo : not_nil err && negb (errors_Is_ErrNoRows err) = false).
      { destruct Habsent as [-> | ->]; [reflexivity | apply andb_false_r]. }
      rewrite Hgo. simpl. now rewrite Hcreate.
Qed.

(** The amended C2. When the store's [GetByID] returns a record and the
    requested e-mail is not empty, the outcome of [UpdateEmail] turns on
    whether the lookup by e-mail returns a record, whoever it belongs to:
    if it returns one, the result is [user with this email already exists]
    and the store's [Update] is not called; if it returns none (with no
    error or with [sql.ErrNoRows]), the loaded record is handed to the
    store's [Update] with the new e-mail and a fresh [updatedAt], and no
    error is returned when that call succeeds. *)
Theorem UpdateEmail_conflict_lookup
    (id : string) (request : UpdateEmailRequest.t) (w : World S)
    (existing : User) (st1 : S)
    (holder : option User) (err : option error) (st2 : S) :
  store_GetByID (userStore s) ctx id (store_state w)
  = ((Some existing, None), st1) ->
  UpdateEmailRequest.Email request <> "" ->
  store_GetByEmail (userStore s) ctx (UpdateEmailRequest.Email request) st1
  = ((holder, err), st2) ->
  err = None \/ errors_Is_ErrNoRows err = true ->
  let email := UpdateEmailRequest.Email request in
  let result := UpdateEmail rt s ctx id request w in
  let persisted :=
    set_UpdatedAt (time_Now_reading rt (clock_reads w)) (set_Email email existing) in
  (fst result = Some (errors_New "user with this email already exists")
   <-> holder <> None)
  /\ (holder <> None ->
      calls (snd result) = (calls w ++ [call_GetByID id; call_GetByEmail email])%list)
  /\ (holder = None ->
      calls (snd result)
      = (calls w ++ [call_GetByID id; call_GetByEmail email; call_Update persisted])%list
      /\ Email persisted = email
      /\ (fst (store_Update (userStore s) ctx persisted st2) = None ->
          fst result = None)).
Proof.
  intros Hload Hemail Hlookup Habsent email result persisted.
  subst result email. run_service. rewrite Hload. simpl.
  apply is_empty_false in Hemail. rewrite Hemail. simpl.
  rewrite Hlookup. simpl.
  assert (Hgo : not_nil err && negb (errors_Is_ErrNoRows err) = false).
  { destruct Habsent as [-> | ->]; [reflexivity | apply andb_false_r]. }
  rewrite Hgo. destruct holder as [other | ]; simpl.
  - repeat split; try congruence.
    intros _. now rewrite <- !app_assoc.
  - fold persisted.
    destruct (store_Update (userStore s) ctx persisted st2) as [[e | ] st3];
      simpl; (split; [split; congruence | ]);
      (split; [congruence | ]); intros _;
      (split; [now rewrite <- !app_assoc | ]); split; congruence.
Qed.


(** C7. Whatever the input and whatever the store and the hasher do, an
    error returned by [Create], [GetByID], [GetByEmail], [Update],
    [UpdatePassword], [UpdateEmail] or [Delete] is made from one of the
    eight fixed messages.  The errors of the store and of the hasher only
    reach the log: were they replaced by any other errors (that are
    [sql.ErrNoRows] in the same cases), every operation would return the
    same values, leave the store in the same state and make the same
    calls. *)
Theorem errors_are_caller_visible
    (id email : string) (user : User)
    (names : UpdateUserRequest.t) (password : UpdatePasswordRequest.t)
    (address : UpdateEmailRequest.t) (w : World S) :
  (caller_visible (snd (fst (Create rt s ctx user w)))
   /\ caller_visible (snd (fst (GetByID s ctx id w)))
   /\ caller_visible (snd (fst (GetByEmail s ctx email w)))
   /\ caller_visible (fst (Update rt s ctx id names w))
   /\ caller_visible (fst (UpdatePassword rt s ctx id password w))
   /\ caller_visible (fst (UpdateEmail rt s ctx id address w))
   /\ caller_visible (fst (Delete s ctx id w)))
  /\
  (forall f : error -> error,
     (forall err, errors_Is_sql_ErrNoRows (f err) = errors_Is_sql_ErrNoRows err) ->
     let rt' := relabel_runtime f rt in
     let s' := NewUserService (relabel_store f (userStore s)) in
     observed (Create rt' s' ctx user w) = observed (Create rt s ctx user w)
     /\ observed (GetByID s' ctx id w) = observed (GetByID s ctx id w)
     /\ observed (GetByEmail s' ctx email w) = observed (GetByEmail s ctx email w)
     /\ observed (Update rt' s' ctx id names w) = observed (Update rt s ctx id names w)
     /\ observed (UpdatePassword rt' s' ctx id password w)
        = observed (UpdatePassword rt s ctx id password w)
     /\ observed (UpdateEmail rt' s' ctx id address w)
        = observed (UpdateEmail rt s ctx id address w)
     /\ observed (Delete s' ctx id w) = observed (Delete s ctx id w)).
Proof.
  split.
  - pose proof (validateUser_caller_visible user) as Hvalid.
    repeat split; run_service; rewrite ?validateUser_stamped;
      try (destruct (validateUser user); [exact Hvalid | ]);
      service_cases; trivial; visible.
  - intros f Hf rt' s'. subst rt' s'. unfold observed.
    repeat split; run_service; rewrite ?validateUser_stamped;
      try (destruct (validateUser user); [reflexivity | ]);
      simpl; repeat (first [rewrite Hf | service_case]; simpl); reflexivity.
Qed.

(** What [Update] does with the names: a name of the request is assigned
    when it is empty, and only then. *)
Lemma Update_persisted_names
    (id : string) (request : UpdateUserRequest.t) (w : World S)
    (existing : User) (st : S) :
  store_GetByID (userStore s) ctx id (store_state w) = ((Some existing, None), st) ->
  exists persisted,
    calls (snd (Update rt s ctx id request w))
    = (calls w ++ [call_GetByID id; call_Update persisted])%list
    /\ FirstName persisted
       = (if is_empty (UpdateUserRequest.FirstName request)
          then "" else FirstName existing)
    /\ LastName persisted
       = (if is_empty (UpdateUserRequest.LastName request)
          then "" else LastName existing).
Proof.
  intros Hload. run_service. rewrite Hload. simpl.
  store_answers; rewrite <- app_assoc; (eexists; split; [reflexivity | ]);
    destruct (UpdateUserRequest.FirstName request),
             (UpdateUserRequest.LastName request); split; reflexivity.
Qed.

(** What the three updates do with the time stamps: [Update] and
    [UpdateEmail] read the clock once and persist its reading as
    [updatedAt]; [UpdatePassword] does not read the clock and persists
    the [updatedAt] it loaded.  None of them changes [createdAt]. *)
Lemma updates_and_time_stamps
    (id : string) (names : UpdateUserRequest.t)
    (password : UpdatePasswordRequest.t) (address : UpdateEmailRequest.t)
    (w : World S) :
  let now := time_Now_reading rt (clock_reads w) in
  (forall persisted,
     In (call_Update persisted) (calls (snd (Update rt s ctx id names w))) ->
     ~ In (call_Update persisted) (calls w) ->
     UpdatedAt persisted = now
     /\ exists existing,
          fst (fst (store_GetByID (userStore s) ctx id (store_state w)))
          = Some existing
          /\ CreatedAt persisted = CreatedAt existing)
  /\ (forall persisted,
        In (call_Update persisted)
           (calls (snd (UpdateEmail rt s ctx id address w))) ->
        ~ In (call_Update persisted) (calls w) ->
        UpdatedAt persisted = now
        /\ exists existing,
             fst (fst (store_GetByID (userStore s) ctx id (store_state w)))
             = Some existing
             /\ CreatedAt persisted = CreatedAt existing)
  /\ (clock_reads (snd (UpdatePassword rt s ctx id password w)) = clock_reads w
      /\ forall persisted,
           In (call_Update persisted)
              (calls (snd (UpdatePassword rt s ctx id password w))) ->
           ~ In (call_Update persisted) (calls w) ->
           exists existing,
             fst (fst (store_GetByID (userStore s) ctx id (store_state w)))
             = Some existing
             /\ UpdatedAt persisted = UpdatedAt existing
             /\ CreatedAt persisted = CreatedAt existing).
Proof.
  intros now. subst now.
  assert (Hin : forall (l : list StoreCall) (c d : StoreCall),
             In c (l ++ [d]) -> ~ In c l -> c = d).
  { intros l c d H Hn. apply in_app_or in H as [H | [H | []]]; [tauto | auto]. }
  assert (Hin2 : forall (l : list StoreCall) (c d e : StoreCall),
             In c ((l ++ [d]) ++ [e]) -> ~ In c l -> c = d \/ c = e).
  { intros l c d e H Hn. apply in_app_or in H as [H | [H | []]]; [ | auto].
    left. now apply Hin with (l := l). }
  assert (Hin3 : forall (l : list StoreCall) (c d e g : StoreCall),
             In c (((l ++ [d]) ++ [e]) ++ [g]) -> ~ In c l ->
             c = d \/ c = e \/ c = g).
  { intros l c d e g H Hn. apply in_app_or in H as [H | [H | []]]; [ | auto].
    destruct (Hin2 l c d e H Hn); auto. }
  split; [ | split; [ | split ] ].
  - run_service. service_cases; intros persisted H Hn;
      try (apply Hin in H; [discriminate H | exact Hn]);
      (apply Hin2 in H; [ | exact Hn ]);
      (destruct H as [H | H]; [discriminate H | ]);
      injection H as ->; (split; [reflexivity | ]);
      eexists; split; reflexivity.
  - run_service. service_cases; intros persisted H Hn;
      try (apply Hin in H; [discriminate H | exact Hn]);
      try (apply Hin2 in H; [ | exact Hn ]; destruct H as [H | H]; discriminate H);
      (apply Hin3 in H; [ | exact Hn ]);
      (destruct H as [H | [H | H]]; try discriminate H);
      injection H as ->; (split; [reflexivity | ]);
      eexists; split; reflexivity.
  - run_service. service_cases; reflexivity.
  - run_service. service_cases; intros persisted H Hn;
      try (apply Hin in H; [discriminate H | exact Hn]);
      (apply Hin2 in H; [ | exact Hn ]);
      (destruct H as [H | H]; [discriminate H | ]);
      injection H as ->; eexists; repeat split.
Qed.

End ServiceFacts.

(** ** The tests of the repository, on the model *)

Section Tests.

Let ctx := context_Background.
Let random_error := errors_New "random error".
Let user1 : User := mkUser "1" "John" "Doe" "john.doe@example.com" "" 0%Z 0%Z.
Let service (m : MockUserStore) := NewUserService (mock m).
Let run {A : Type} (operation : M unit A) : A := fst (operation fresh_world).

Example TestUserService_Create_ReturnsErrorForFailingToCheckForExistingUser :
  snd (run (Create example_runtime
              (service (mkMock None None (Some (fun _ _ => (None, Some random_error)))
                               None None))
              ctx john_doe))
  = Some (errors_New "an internal error occurred").
Proof. vm_compute. reflexivity. Qed.

Example TestUserService_Create_ReturnsErrorForExistingUserEmail :
  snd (run (Create example_runtime
              (service (mkMock None None (Some (fun _ _ => (Some user1, None)))
                               None None))
              ctx john_doe))
  = Some (errors_New "user with this email already exists").
Proof. vm_compute. reflexivity. Qed.

Example TestUserService_Create_ReturnsErrorForFailingToCreateUser :
  snd (run (Create example_runtime
              (service (mkMock (Some (fun _ user => (user, Some random_error)))
                               None None None None))
              ctx john_doe))
  = Some (errors_New "an internal error occurred").
Proof. vm_compute. reflexivity. Qed.

Example TestUserService_Create_ReturnsNoErrorForValidUser :
  let result :=
    run (Create example_runtime
           (service (mkMock (Some (fun _ user => (set_ID "42" user, None)))
                            None None None None))
           ctx john_doe) in
  snd result = None
  /\ ID (fst result) = "42"
  /\ Password (fst result) <> "password".
Proof. vm_compute. repeat split. discriminate. Qed.

Example TestUserService_GetByID_ReturnsErrorForUserNotFound :
  run (GetByID (service (mkMock None (Some (fun _ _ => (None, None))) None None None))
         ctx "1")
  = (None, Some (errors_New "user not found")).
Proof. reflexivity. Qed.

Example TestUserService_GetByID_ReturnsUserForValidID :
  run (GetByID (service (mkMock None (Some (fun _ _ => (Some user1, None)))
                                None None None))
         ctx "1")
  = (Some user1, None).
Proof. reflexivity. Qed.

Example TestUserService_UpdatePassword_ReturnsErrorForEmptyPassword :
  UpdatePassword example_runtime
    (service (mkMock None (Some (fun _ _ => (Some user1, None))) None None None))
    ctx "1" (UpdatePasswordRequest.mk "") fresh_world
  = (Some (errors_New "password is required"),
     mkWorld tt 0 [call_GetByID "1"] []).
Proof. reflexivity. Qed.

Example TestUserService_UpdateEmail_ReturnsErrorForExistingEmail :
  run (UpdateEmail example_runtime
         (service (mkMock None (Some (fun _ _ => (Some user1, None)))
                          (Some (fun _ _ => (Some (set_ID "2" user1), None)))
                          None None))
         ctx "1" (UpdateEmailRequest.mk "john.doe@example.com"))
  = Some (errors_New "user with this email already exists").
Proof. reflexivity. Qed.

Example TestUserService_UpdateEmail_ReturnsNoErrorForValidRequest :
  run (UpdateEmail example_runtime
         (service (mkMock None (Some (fun _ _ => (Some user1, None))) None None None))
         ctx "1" (UpdateEmailRequest.mk "john.doe@example.com"))
  = None.
Proof. reflexivity. Qed.

Example TestUserService_Delete_ReturnsErrorForUserNotFound :
  Delete (service (mkMock None (Some (fun _ _ => (None, None))) None None None))
         ctx "1" fresh_world
  = (Some (errors_New "user not found"), mkWorld tt 0 [call_GetByID "1"] []).
Proof. reflexivity. Qed.

Example TestUserService_Delete_ReturnsErrorForFailingToDeleteUser :
  Delete (service (mkMock None (Some (fun _ _ => (Some user1, None))) None None
                          (Some (fun _ _ => Some random_error))))
         ctx "1" fresh_world
  = (Some (errors_New "an internal error occurred"),
     mkWorld tt 0 [call_GetByID "1"; call_Delete "1"]
             [("failed to delete user", Some random_error)]).
Proof. reflexivity. Qed.

End Tests.

(** ** The claims on the stores of the tests *)

(** C1. A request to rename John Doe to Jane Smith succeeds, and the
    record handed to the store's [Update] still says John Doe: the names
    of a request are assigned only when they are empty. *)
Theorem Update_drops_requested_names :
  Update example_runtime (NewUserService (mock store_with_john))
         context_Background "1" (UpdateUserRequest.mk "Jane" "Smith") fresh_world
  = (None,
     mkWorld tt 1
       [call_GetByID "1";
        call_Update (mkUser "1" "John" "Doe" "john.doe@example.com"
                            "$2a$10$stored" 10%Z 1000%Z)]
       []).
Proof. reflexivity. Qed.

(** C3. A change of password succeeds without reading the clock, and
    the record handed to the store's [Update] carries the [updatedAt] it
    was loaded with (20), not the time of the call (1000). *)
Theorem UpdatePassword_keeps_old_updatedAt :
  UpdatePassword example_runtime (NewUserService (mock store_with_john))
                 context_Background "1" (UpdatePasswordRequest.mk "new-password")
                 fresh_world
  = (None,
     mkWorld tt 0
       [call_GetByID "1";
        call_Update (mkUser "1" "John" "Doe" "john.doe@example.com"
                            "$2a$10$new-password" 10%Z 20%Z)]
       [])
  /\ time_Now_reading example_runtime 0 = 1000%Z.
Proof. split; reflexivity. Qed.

(** C2, as stated, fails: the lookup by e-mail returns the very user that
    is being updated, and [UpdateEmail] answers [user with this email
    already exists]. *)
Lemma UpdateEmail_rejects_same_user :
  UpdateEmail example_runtime
    (NewUserService (mock store_with_john_by_email)) context_Background "1"
    (UpdateEmailRequest.mk "john.doe@example.com") fresh_world
  = (Some (errors_New "user with this email already exists"),
     mkWorld tt 0 [call_GetByID "1"; call_GetByEmail "john.doe@example.com"] [])
  /\ ~ UpdateEmail_spares_same_user example_runtime
        (NewUserService (mock store_with_john_by_email)) context_Background "1"
        (UpdateEmailRequest.mk "john.doe@example.com") fresh_world.
Proof.
  split; [reflexivity | ].
  intros claim.
  destruct (claim john tt (Some john) tt) as [same _];
    [discriminate | reflexivity | reflexivity | ].
  destruct same as [no_error _];
    [right; exists john; split; reflexivity | reflexivity | ].
  discriminate no_error.
Qed.

(** [UpdateEmail_conflict_lookup] at work: a new address that nobody holds is
    accepted, and one that the lookup finds is refused, even under the
    user's own record. *)
Lemma UpdateEmail_conflict_lookup_witness :
  fst (UpdateEmail example_runtime (NewUserService (mock store_with_john))
         context_Background "1" (UpdateEmailRequest.mk "john@example.org")
         fresh_world) = None
  /\ fst (UpdateEmail example_runtime
            (NewUserService (mock store_with_john_by_email))
            context_Background "1" (UpdateEmailRequest.mk "john@example.org")
            fresh_world)
     = Some (errors_New "user with this email already exists").
Proof.
  split.
  - refine (proj2 (proj2 (proj2 (proj2
      (@UpdateEmail_conflict_lookup unit example_runtime
         (NewUserService (mock store_with_john)) context_Background "1"
         (UpdateEmailRequest.mk "john@example.org") fresh_world john tt None None tt
         eq_refl _ eq_refl (or_introl eq_refl))) eq_refl)) eq_refl).
    discriminate.
  - refine (proj2 (proj1
      (@UpdateEmail_conflict_lookup unit example_runtime
         (NewUserService (mock store_with_john_by_email)) context_Background "1"
         (UpdateEmailRequest.mk "john@example.org") fresh_world john tt
         (Some john) None tt eq_refl _ eq_refl (or_introl eq_refl))) _);
      discriminate.
Defined.

Example long_password_length : String.length long_password = 73.
Proof. reflexivity. Qed.

(** C5, as stated, fails: the record passes validation and the store
    reports a user for its e-mail, but the password has 73 bytes, the
    hasher rejects it, and [Create] answers [an internal error occurred]
    before it asks the store. *)
Lemma Create_long_password_internal_error :
  validateUser john_long = None
  /\ Create example_runtime
       (NewUserService (mock store_with_john_by_email)) context_Background
       john_long fresh_world
     = (set_UpdatedAt 1001%Z (set_CreatedAt 1000%Z john_long),
        Some (errors_New "an internal error occurred"),
        mkWorld tt 2 []
          [("failed to hash password",
            Some (errors_New "bcrypt: password length exceeds 72 bytes"))])
  /\ ~ Create_rejects_existing_email example_runtime
        (NewUserService (mock store_with_john_by_email)) context_Background
        john_long fresh_world.
Proof.
  split; [vm_compute; reflexivity | ].
  split; [vm_compute; reflexivity | ].
  intros claim. destruct claim as [wrong _].
  - vm_compute. reflexivity.
  - exists john, tt. reflexivity.
  - vm_compute in wrong. discriminate wrong.
Qed.

(** [Create_existing_email] at work, on the record of the tests. *)
Lemma Create_existing_email_witness :
  snd (fst (Create example_runtime
              (NewUserService (mock store_with_john_by_email))
              context_Background john_doe fresh_world))
  = Some (errors_New "user with this email already exists")
  /\ calls (snd (Create example_runtime
                   (NewUserService (mock store_with_john_by_email))
                   context_Background john_doe fresh_world))
     = [call_GetByEmail "john.doe@example.com"].
Proof.
  refine (proj1
    (@Create_existing_email unit example_runtime
       (NewUserService (mock store_with_john_by_email)) context_Background
       john_doe john fresh_world tt _ eq_refl) eq_refl).
  vm_compute. reflexivity.
Defined.

(** [Create_writes_to_caller_record] at work: the record after a refused
    e-mail, and after a refused empty password. *)
Lemma Create_writes_to_caller_record_witness :
  fst (Create example_runtime (NewUserService (mock store_with_john_by_email))
         context_Background john_doe fresh_world)
  = (mkUser "" "John" "Doe" "john.doe@example.com" "$2a$10$password"
            1000%Z 1001%Z,
     Some (errors_New "user with this email already exists"))
  /\ fst (Create example_runtime (NewUserService (mock store_with_john_by_email))
            context_Background (set_Password "" john_doe) fresh_world)
     = (mkUser "" "John" "Doe" "john.doe@example.com" "" 1000%Z 1001%Z,
        Some (errors_New "password is required")).
Proof.
  pose proof (@Create_writes_to_caller_record unit example_runtime
                (NewUserService (mock store_with_john_by_email))
                context_Background john_doe fresh_world) as (_ & _ & hashed).
  pose proof (@Create_writes_to_caller_record unit example_runtime
                (NewUserService (mock store_with_john_by_email))
                context_Background (set_Password "" john_doe) fresh_world)
    as [stamped _].
  split.
  - specialize (hashed "$2a$10$password").
    destruct hashed as (_ & _ & _ & record & _);
      [vm_compute; reflexivity | reflexivity | ].
    apply injective_projections; [apply record | ]; vm_compute; reflexivity.
  - apply stamped. reflexivity.
Defined.


(** [errors_are_caller_visible] at work on a store whose every method
    fails. *)
Lemma errors_are_caller_visible_witness :
  caller_visible
    (fst (Delete (NewUserService (mock store_failing)) context_Background "1"
            fresh_world))
  /\ observed
       (Update (relabel_runtime redact example_runtime)
          (NewUserService (relabel_store redact (mock store_failing)))
          context_Background "1" (UpdateUserRequest.mk "Jane" "Doe") fresh_world)
     = observed
         (Update example_runtime (NewUserService (mock store_failing))
            context_Background "1" (UpdateUserRequest.mk "Jane" "Doe")
            fresh_world).
Proof.
  pose proof (@errors_are_caller_visible unit example_runtime
                (NewUserService (mock store_failing)) context_Background
                "1" "john.doe@example.com" john_doe
                (UpdateUserRequest.mk "Jane" "Doe")
                (UpdatePasswordRequest.mk "password")
                (UpdateEmailRequest.mk "john@example.org") fresh_world)
    as [visible same].
  split.
  - apply visible.
  - apply (same redact).
    intros err. unfold redact.
    destruct (errors_Is_sql_ErrNoRows err) eqn:E; [reflexivity | reflexivity].
Defined.

(** [validateUser_first_violation] at work: the record of the tests is
    valid, and without a password and a first name the password is asked
    for. *)
Lemma validateUser_first_violation_witness :
  validateUser john_doe = None
  /\ validateUser (mkUser "" "" "Doe" "john.doe@example.com" "" 0%Z 0%Z)
     = Some (errors_New "password is required").
Proof.
  split.
  - apply (proj1 (validateUser_first_violation john_doe)).
    repeat split; try discriminate.
    exists "john.doe", "example", "com".
    repeat split; try discriminate; simpl; lia.
  - apply (proj1 (proj2 (validateUser_first_violation
                           (mkUser "" "" "Doe" "john.doe@example.com" "" 0%Z 0%Z)))).
    reflexivity.
Defined.


(** * Further properties of the service *)

Lemma skipn_length_app {A : Type} (l l' : list A) :
  skipn (List.length l) (l ++ l') = l'.
Proof. induction l as [ | a l IH ]; simpl; [reflexivity | exact IH]. Qed.

Lemma calls_made_app {S : Type} (w w' : World S) (l : list StoreCall) :
  calls w' = (calls w ++ l)%list -> calls_made w w' = l.
Proof. unfold calls_made. intros ->. apply skipn_length_app. Qed.

Lemma calls_made_nil {S : Type} (w w' : World S) :
  calls w' = calls w -> calls_made w w' = [].
Proof.
  intros H. apply calls_made_app. now rewrite app_nil_r.
Qed.

Lemma logs_made_app {S : Type} (w w' : World S) (l : list (string * option error)) :
  logs w' = (logs w ++ l)%list -> logs_made w w' = l.
Proof. unfold logs_made. intros ->. apply skipn_length_app. Qed.

Lemma logs_made_nil {S : Type} (w w' : World S) :
  logs w' = logs w -> logs_made w w' = [].
Proof.
  intros H. apply logs_made_app. now rewrite app_nil_r.
Qed.


Lemma absent_or_no_rows (err : option error) :
  not_nil err && negb (errors_Is_ErrNoRows err) = false
  <-> err = None \/ errors_Is_ErrNoRows err = true.
Proof.
  destruct err as [e | ]; simpl; [ | tauto ].
  destruct (errors_Is_sql_ErrNoRows e); simpl; split; intros H;
    try tauto; try discriminate.
  destruct H; discriminate.
Qed.

Lemma skipn_made1 {A : Type} (l : list A) (a : A) :
  skipn (List.length l) (l ++ [a]) = [a].
Proof. apply skipn_length_app. Qed.

Lemma skipn_made2 {A : Type} (l : list A) (a b : A) :
  skipn (List.length l) ((l ++ [a]) ++ [b]) = [a; b].
Proof. rewrite <- app_assoc. apply skipn_length_app. Qed.

Lemma skipn_made3 {A : Type} (l : list A) (a b c : A) :
  skipn (List.length l) (((l ++ [a]) ++ [b]) ++ [c]) = [a; b; c].
Proof. rewrite <- !app_assoc. apply skipn_length_app. Qed.

(** Computing what a run added to the calls and to the log. *)
Ltac made :=
  unfold calls_made, logs_made; simpl;
  rewrite ?skipn_made3, ?skipn_made2, ?skipn_made1, ?skipn_all.

Section MoreServiceFacts.

Variable S : Type.
Variable rt : Runtime.
Variable s : UserService S.
Variable ctx : Context.

(** X1. [Create] returns no error exactly when every step succeeds: the
    record passes validation, the password is hashed, the lookup by
    e-mail comes back without a record and with no error or with
    [sql.ErrNoRows], and the store's [Create] accepts the stamped record
    with the hashed password. *)
Theorem Create_succeeds_iff (user : User) (w : World S) :
  let stamped :=
    set_UpdatedAt (time_Now_reading rt (Datatypes.S (clock_reads w)))
      (set_CreatedAt (time_Now_reading rt (clock_reads w)) user) in
  snd (fst (Create rt s ctx user w)) = None
  <-> validateUser user = None
      /\ exists hashedPassword err st,
           bcrypt_GenerateFromPassword rt (Password user) bcrypt_DefaultCost
           = (hashedPassword, None)
           /\ store_GetByEmail (userStore s) ctx (Email user) (store_state w)
              = ((None, err), st)
           /\ (err = None \/ errors_Is_ErrNoRows err = true)
           /\ snd (fst (store_Create (userStore s) ctx
                          (set_Password hashedPassword stamped) st)) = None.
Proof.
  intros stamped. run_service. rewrite validateUser_stamped.
  fold stamped.
  destruct (validateUser user) as [invalid | ] eqn:Hvalid; simpl.
  { split; [discriminate | intros [H _]; discriminate H]. }
  destruct (bcrypt_GenerateFromPassword rt (Password user) bcrypt_DefaultCost)
    as [hashedPassword [failure | ]] eqn:Hhash; simpl.
  { split; [discriminate | ].
    intros (_ & h & err & st & H & _). discriminate H. }
  destruct (store_GetByEmail (userStore s) ctx (Email user) (store_state w))
    as [[existing err] st] eqn:Hlookup; simpl.
  destruct (not_nil err && negb (errors_Is_ErrNoRows err)) eqn:Hgo; simpl.
  { split; [discriminate | ].
    intros (_ & h & err' & st' & _ & H & Habsent & _).
    injection H as _ <- _. apply absent_or_no_rows in Habsent. congruence. }
  apply absent_or_no_rows in Hgo.
  destruct existing as [existing | ]; simpl.
  { split; [discriminate | ].
    intros (_ & h & err' & st' & _ & H & _). discriminate H. }
  destruct (store_Create (userStore s) ctx (set_Password hashedPassword stamped) st)
    as [[left [refused | ]] st'] eqn:Hcreate; simpl.
  - split; [discriminate | ].
    intros (_ & h & err' & st'' & H1 & H2 & _ & H3).
    injection H1 as <-. injection H2 as _ <-.
    rewrite Hcreate in H3. discriminate H3.
  - split; [ | reflexivity ]. intros _. split; [reflexivity | ].
    exists hashedPassword, err, st. rewrite Hcreate. auto.
Qed.

(** X2. The calls [Create] makes on the store.  A record that fails
    validation, or whose password cannot be hashed, never reaches the
    store: no call is made and the store stays as it was.  Otherwise
    [Create] first looks the e-mail up, and the only other call it can
    make is the store's [Create], on the stamped record whose password
    field holds the hash, never the password it was given. *)
Theorem Create_store_calls (user : User) (w : World S) :
  let stamped :=
    set_UpdatedAt (time_Now_reading rt (Datatypes.S (clock_reads w)))
      (set_CreatedAt (time_Now_reading rt (clock_reads w)) user) in
  let after := snd (Create rt s ctx user w) in
  match validateUser user,
        bcrypt_GenerateFromPassword rt (Password user) bcrypt_DefaultCost with
  | None, (hashedPassword, None) =>
      calls_made w after = [call_GetByEmail (Email user)]
      \/ calls_made w after
         = [call_GetByEmail (Email user);
            call_Create (set_Password hashedPassword stamped)]
  | _, _ => calls_made w after = [] /\ store_state after = store_state w
  end.
Proof.
  intros stamped after. subst after. run_service. rewrite validateUser_stamped.
  fold stamped.
  destruct (validateUser user) as [invalid | ]; simpl.
  { split; [now apply calls_made_nil | reflexivity]. }
  destruct (bcrypt_GenerateFromPassword rt (Password user) bcrypt_DefaultCost)
    as [hashedPassword [failure | ]]; simpl.
  { split; [now apply calls_made_nil | reflexivity]. }
  service_cases;
    first [ left; now apply calls_made_app
          | right; apply calls_made_app; simpl; now rewrite <- app_assoc ].
Qed.

(** X3. [Delete] deletes only what it has seen: the store's [Delete] is
    called, with the identifier given, exactly when the store's [GetByID]
    returned a record and no error, and then [Delete] returns no error
    if the store's [Delete] does and [an internal error occurred]
    otherwise.  In every other case the lookup is the only call and an
    error is returned. *)
Theorem Delete_protocol (id : string) (w : World S) :
  let run := Delete s ctx id w in
  match store_GetByID (userStore s) ctx id (store_state w) with
  | ((Some _, None), st) =>
      calls_made w (snd run) = [call_GetByID id; call_Delete id]
      /\ (fst run = None <-> fst (store_Delete (userStore s) ctx id st) = None)
      /\ (fst run = None
          \/ fst run = Some (errors_New "an internal error occurred"))
  | _ =>
      calls_made w (snd run) = [call_GetByID id] /\ fst run <> None
  end.
Proof.
  intros run. subst run. run_service.
  destruct (store_GetByID (userStore s) ctx id (store_state w))
    as [[[existing | ] [err | ]] st]; simpl;
    try (split; [made; reflexivity | discriminate]).
  destruct (store_Delete (userStore s) ctx id st) as [[err | ] st'];
    simpl; (split; [made; reflexivity | ]); split; auto;
    split; (discriminate || reflexivity).
Qed.

(** X4. [UpdatePassword] returns no error exactly when the store's
    [GetByID] returned a record and no error, the requested password is
    not empty, hashing it succeeds, and the store's [Update] accepts the
    loaded record with its password field replaced by the hash.  Whenever
    the store's [Update] is called it is on that record: no other field is
    changed, and the requested password itself is never handed to the
    store. *)
Theorem UpdatePassword_outcome
    (id : string) (request : UpdatePasswordRequest.t) (w : World S) :
  let run := UpdatePassword rt s ctx id request w in
  let password := UpdatePasswordRequest.Password request in
  (fst run = None
   <-> exists existing st hashedPassword,
         store_GetByID (userStore s) ctx id (store_state w)
         = ((Some existing, None), st)
         /\ password <> ""
         /\ bcrypt_GenerateFromPassword rt password bcrypt_DefaultCost
            = (hashedPassword, None)
         /\ fst (store_Update (userStore s) ctx
                   (set_Password hashedPassword existing) st) = None)
  /\ (forall persisted,
        In (call_Update persisted) (calls_made w (snd run)) ->
        exists existing st hashedPassword,
          store_GetByID (userStore s) ctx id (store_state w)
          = ((Some existing, None), st)
          /\ bcrypt_GenerateFromPassword rt password bcrypt_DefaultCost
             = (hashedPassword, None)
          /\ persisted = set_Password hashedPassword existing).
Proof.
  intros run password. subst run password. run_service.
  destruct (store_GetByID (userStore s) ctx id (store_state w))
    as [[[existing | ] [err | ]] st]; simpl;
    try (split;
         [ split; [discriminate | intros (? & ? & ? & H & _); discriminate H]
         | made; intros persisted [H | []]; discriminate H ]).
  destruct (is_empty (UpdatePasswordRequest.Password request)) eqn:Hempty; simpl.
  { apply is_empty_true in Hempty. split.
    - split; [discriminate | intros (? & ? & ? & _ & H & _); contradiction].
    - made. intros persisted [H | []]. discriminate H. }
  apply is_empty_false in Hempty.
  destruct (bcrypt_GenerateFromPassword rt (UpdatePasswordRequest.Password request)
              bcrypt_DefaultCost) as [hashedPassword [failure | ]]; simpl.
  { split.
    - split; [discriminate | intros (? & ? & ? & _ & _ & H & _); discriminate H].
    - made. intros persisted [H | []]. discriminate H. }
  destruct (store_Update (userStore s) ctx (set_Password hashedPassword existing) st)
    as [[refused | ] st'] eqn:Hupdate; simpl; split.
  - split; [discriminate | ].
    intros (existing' & st'' & h & H1 & _ & H2 & H3).
    injection H1 as <- <-. injection H2 as <-.
    rewrite Hupdate in H3. discriminate H3.
  - made. intros persisted [H | [H | []]]; [discriminate H | ].
    injection H as <-. exists existing, st, hashedPassword. auto.
  - split; [ | reflexivity ]. intros _.
    exists existing, st, hashedPassword. rewrite Hupdate. auto.
  - made. intros persisted [H | [H | []]]; [discriminate H | ].
    injection H as <-. exists existing, st, hashedPassword. auto.
Qed.

(** X5. [UpdatePassword] and [UpdateEmail] look at the request only once
    the user is known to exist.  With an empty password, or an empty
    e-mail, and a store whose [GetByID] returns a record and no error,
    they answer [password is required], or [email is required], having
    made no call but that lookup, read no clock, hashed nothing and logged
    nothing; when the lookup returns neither record nor error the answer
    is [user not found], and when it returns an error, [an internal error
    occurred]. *)
Theorem empty_request_after_existence (id : string) (w : World S) :
  let blank_password :=
    UpdatePassword rt s ctx id (UpdatePasswordRequest.mk "") w in
  let blank_email := UpdateEmail rt s ctx id (UpdateEmailRequest.mk "") w in
  match store_GetByID (userStore s) ctx id (store_state w) with
  | ((_, Some _), _) =>
      fst blank_password = Some (errors_New "an internal error occurred")
      /\ fst blank_email = Some (errors_New "an internal error occurred")
  | ((None, None), _) =>
      fst blank_password = Some (errors_New "user not found")
      /\ fst blank_email = Some (errors_New "user not found")
  | ((Some _, None), st) =>
      let only_lookup :=
        mkWorld st (clock_reads w) (calls w ++ [call_GetByID id]) (logs w) in
      blank_password = (Some (errors_New "password is required"), only_lookup)
      /\ blank_email = (Some (errors_New "email is required"), only_lookup)
  end.
Proof.
  intros blank_password blank_email. subst blank_password blank_email.
  run_service.
  destruct (store_GetByID (userStore s) ctx id (store_state w))
    as [[[existing | ] [err | ]] st]; simpl; split; reflexivity.
Qed.

(** X6. An update changes only its own fields.  The record [Update]
    hands to the store's [Update] is the loaded one but for the two names
    and [updatedAt], which is the reading of the clock; the record
    [UpdateEmail] hands over is the loaded one with the requested e-mail
    and that reading as [updatedAt].  Identifier, [createdAt] and password
    are those of the loaded record. *)
Theorem updates_change_only_their_fields
    (id : string) (names : UpdateUserRequest.t)
    (address : UpdateEmailRequest.t) (w : World S) :
  let now := time_Now_reading rt (clock_reads w) in
  (forall persisted,
     In (call_Update persisted)
        (calls_made w (snd (Update rt s ctx id names w))) ->
     exists existing st,
       store_GetByID (userStore s) ctx id (store_state w)
       = ((Some existing, None), st)
       /\ persisted
          = set_UpdatedAt now
              (set_LastName (LastName persisted)
                 (set_FirstName (FirstName persisted) existing)))
  /\ (forall persisted,
        In (call_Update persisted)
           (calls_made w (snd (UpdateEmail rt s ctx id address w))) ->
        exists existing st,
          store_GetByID (userStore s) ctx id (store_state w)
          = ((Some existing, None), st)
          /\ persisted
             = set_UpdatedAt now
                 (set_Email (UpdateEmailRequest.Email address) existing)).
Proof.
  intros now. subst now. split; run_service;
    (destruct (store_GetByID (userStore s) ctx id (store_state w))
       as [[[existing | ] [err | ]] st]; simpl;
     [ made; intros persisted [H | []]; discriminate H
     | | made; intros persisted [H | []]; discriminate H
     | made; intros persisted [H | []]; discriminate H ]).
  - service_cases; made; intros persisted [H | [H | []]];
      try discriminate H; injection H as <-;
      exists existing, st; split; reflexivity.
  - service_cases; made; intros persisted H; simpl in H;
      repeat (destruct H as [H | H]; try discriminate H); try contradiction;
      injection H as <-; exists existing, st; split; reflexivity.
Qed.

(** X7. What the result of an operation tells about writes to the
    store.  When [Create], [Update], [UpdatePassword], [UpdateEmail] or
    [Delete] returns no error, it made one write on the store
    ([Create], [Update] or [Delete]) and that was its last call; when it
    returns an error other than [an internal error occurred], it made no
    write; it never makes two writes.  [GetByID] and [GetByEmail] make
    no write. *)
Theorem writes_follow_results
    (id email : string) (user : User)
    (names : UpdateUserRequest.t) (password : UpdatePasswordRequest.t)
    (address : UpdateEmailRequest.t) (w : World S) :
  writes_as_reported w (snd (fst (Create rt s ctx user w)))
                     (snd (Create rt s ctx user w))
  /\ writes_as_reported w (fst (Update rt s ctx id names w))
                        (snd (Update rt s ctx id names w))
  /\ writes_as_reported w (fst (UpdatePassword rt s ctx id password w))
                        (snd (UpdatePassword rt s ctx id password w))
  /\ writes_as_reported w (fst (UpdateEmail rt s ctx id address w))
                        (snd (UpdateEmail rt s ctx id address w))
  /\ writes_as_reported w (fst (Delete s ctx id w)) (snd (Delete s ctx id w))
  /\ no_write (calls_made w (snd (GetByID s ctx id w)))
  /\ no_write (calls_made w (snd (GetByEmail s ctx email w))).
Proof.
  assert (Hnone : forall (l : list StoreCall) result w',
             calls_made w w' = l -> no_write l -> result <> None ->
             writes_as_reported w result w').
  { intros l result w' Hm Hl Hr. unfold writes_as_reported. rewrite Hm.
    split; [tauto | split; [intros _ _; exact Hl | left; exact Hl]]. }
  assert (Hone : forall (l : list StoreCall) c result w',
             calls_made w w' = (l ++ [c])%list -> no_write l -> is_write c = true ->
             result = None
             \/ result = Some (errors_New "an internal error occurred") ->
             writes_as_reported w result w').
  { intros l c result w' Hm Hl Hc Hr. unfold writes_as_reported. rewrite Hm.
    split; [intros _; exists l, c; auto | ].
    split; [intros H1 H2; destruct Hr; contradiction | right; exists l, c; auto]. }
  split; [ | split; [ | split; [ | split; [ | split; [ | split ] ] ] ] ];
    run_service; rewrite ?validateUser_stamped;
    try (destruct (validateUser user) eqn:?; simpl);
    service_cases;
    first
      [ made; reflexivity
      | apply Hnone with (l := []); [made; reflexivity | reflexivity | discriminate]
      | eapply Hnone; [made; reflexivity | reflexivity | discriminate]
      | eapply (Hone [_]); [made; reflexivity | reflexivity | reflexivity | auto]
      | eapply (Hone [_; _]); [made; reflexivity | reflexivity | reflexivity | auto] ].
Qed.


End MoreServiceFacts.

(** * The service on the PostgreSQL store *)

Section PostgresFacts.

Variable D : Type.
Variable rt : Runtime.
Variable db : PostgresDB D.
Variable ctx : Context.

(** The lookups of [UserPostgresStore] return a record or an error, and
    never neither. *)
Lemma postgres_lookup_answers (key : string) (d : D) :
  (not_nil (fst (fst (UserPostgresStore.GetByID (UserPostgresStore.mk db) ctx key d)))
   = negb (not_nil (snd (fst (UserPostgresStore.GetByID
                                (UserPostgresStore.mk db) ctx key d)))))
  /\ (not_nil (fst (fst (UserPostgresStore.GetByEmail
                           (UserPostgresStore.mk db) ctx key d)))
      = negb (not_nil (snd (fst (UserPostgresStore.GetByEmail
                                   (UserPostgresStore.mk db) ctx key d))))).
Proof.
  unfold UserPostgresStore.GetByID, UserPostgresStore.GetByEmail. simpl.
  split;
    match goal with
    | |- context [pool_QueryRow_Scan_User ?p ?c ?q ?a ?x] =>
        destruct (pool_QueryRow_Scan_User p c q a x) as [[row [err | ]] d']
    end; reflexivity.
Qed.

(** Unfolding the store down to the calls on the pool. *)
Ltac run_postgres :=
  unfold postgres_service, UserPostgresStore.store, UserPostgresStore.Create,
    UserPostgresStore.GetByID, UserPostgresStore.GetByEmail,
    UserPostgresStore.Update, UserPostgresStore.Delete;
  simpl.

(** Case analysis on the answer of the next call on the pool. *)
Ltac pool_answers :=
  match goal with
  | |- context [pool_QueryRow_Scan_User ?p ?c ?q ?a ?x] =>
      destruct (pool_QueryRow_Scan_User p c q a x) as [[? [?|]] ?] eqn:?
  | |- context [pool_QueryRow_Scan_ID ?p ?c ?q ?a ?x] =>
      destruct (pool_QueryRow_Scan_ID p c q a x) as [[[?|] [?|]] ?] eqn:?
  | |- context [pool_Exec ?p ?c ?q ?a ?x] =>
      destruct (pool_Exec p c q a x) as [[?|] ?] eqn:?
  end; simpl.

Ltac postgres_cases :=
  simpl;
  repeat (first
    [ pool_answers
    | match goal with
      | |- context [bcrypt_GenerateFromPassword ?r ?p ?c] =>
          destruct (bcrypt_GenerateFromPassword r p c) as [? [?|]]
      | |- context [is_empty ?x] => destruct (is_empty x)
      | |- context [errors_Is_sql_ErrNoRows ?e] =>
          destruct (errors_Is_sql_ErrNoRows e)
      end ]; simpl).

(** X9. On the PostgreSQL store no operation ever answers [user not
    found].  The store returns a record or the error of the scan, never
    neither, so a user that is not in the table makes [GetByID] and
    [GetByEmail] answer [an internal error occurred] (they return either
    the record, or that error), and [Update], [UpdatePassword],
    [UpdateEmail] and [Delete] never return [user not found] either. *)
Theorem postgres_never_reports_not_found
    (id email : string) (names : UpdateUserRequest.t)
    (password : UpdatePasswordRequest.t) (address : UpdateEmailRequest.t)
    (w : World D) :
  let s := postgres_service db in
  let not_found := Some (errors_New "user not found") in
  let internal := Some (errors_New "an internal error occurred") in
  ((exists user, fst (GetByID s ctx id w) = (Some user, None))
   \/ fst (GetByID s ctx id w) = (None, internal))
  /\ ((exists user, fst (GetByEmail s ctx email w) = (Some user, None))
      \/ fst (GetByEmail s ctx email w) = (None, internal))
  /\ fst (Update rt s ctx id names w) <> not_found
  /\ fst (UpdatePassword rt s ctx id password w) <> not_found
  /\ fst (UpdateEmail rt s ctx id address w) <> not_found
  /\ fst (Delete s ctx id w) <> not_found.
Proof.
  intros s not_found internal. subst s not_found internal.
  split; [ | split; [ | split; [ | split; [ | split ] ] ] ];
    run_service; run_postgres; postgres_cases;
    first [ discriminate | right; reflexivity | left; eexists; reflexivity ].
Qed.

(** X10. On the PostgreSQL store, [Create] leaves the record of its
    caller with the hash and the two stamps whatever the outcome, once
    validation and hashing have passed: the store writes to the
    identifier only, so but for the identifier the record is the given
    one with the stamps and with the hash in place of the password. *)
Theorem postgres_Create_leaves_hash_and_stamps
    (user : User) (w : World D) (hashedPassword : string) :
  validateUser user = None ->
  bcrypt_GenerateFromPassword rt (Password user) bcrypt_DefaultCost
  = (hashedPassword, None) ->
  let left := fst (fst (Create rt (postgres_service db) ctx user w)) in
  set_ID (ID user) left
  = set_Password hashedPassword
      (set_UpdatedAt (time_Now_reading rt (Datatypes.S (clock_reads w)))
         (set_CreatedAt (time_Now_reading rt (clock_reads w)) user)).
Proof.
  intros Hvalid Hhash left. subst left. run_service.
  rewrite validateUser_stamped, Hvalid, Hhash. simpl.
  run_postgres. postgres_cases; reflexivity.
Qed.

(** X11. On the PostgreSQL store, what [Create] does is independent of
    the identifier and of the time stamps its caller supplies: the error
    returned, the state the database is left in and the log are the
    same, and so is the record but for an identifier the database did not
    assign. *)
Theorem postgres_Create_ignores_supplied_identity
    (user : User) (id : string) (created updated : Time) (w : World D) :
  let s := postgres_service db in
  let supplied := set_ID id (set_CreatedAt created (set_UpdatedAt updated user)) in
  snd (fst (Create rt s ctx supplied w)) = snd (fst (Create rt s ctx user w))
  /\ store_state (snd (Create rt s ctx supplied w))
     = store_state (snd (Create rt s ctx user w))
  /\ logs (snd (Create rt s ctx supplied w)) = logs (snd (Create rt s ctx user w))
  /\ set_ID "" (fst (fst (Create rt s ctx supplied w)))
     = set_ID "" (fst (fst (Create rt s ctx user w))).
Proof.
  intros s supplied. subst s supplied. run_service.
  rewrite !validateUser_stamped.
  change (validateUser (set_ID id (set_CreatedAt created (set_UpdatedAt updated user))))
    with (validateUser user).
  destruct (validateUser user); simpl; [repeat split | ].
  run_postgres. postgres_cases; repeat split.
Qed.

(** X14. On the PostgreSQL store, [Create] and [UpdateEmail] write only
    after the lookup by e-mail has failed with an error that is
    [sql.ErrNoRows]: the store never answers a lookup with neither record
    nor error, so whether anything can be created, or any e-mail changed,
    rests on the error the driver gives for a query without rows. *)
Theorem postgres_writes_need_ErrNoRows
    (user : User) (id : string) (address : UpdateEmailRequest.t) (w : World D) :
  let s := postgres_service db in
  let store := UserPostgresStore.mk db in
  (forall c,
     In c (calls_made w (snd (Create rt s ctx user w))) -> is_write c = true ->
     exists err d,
       UserPostgresStore.GetByEmail store ctx (Email user) (store_state w)
       = ((None, Some err), d)
       /\ errors_Is_sql_ErrNoRows err = true)
  /\ (forall c,
        In c (calls_made w (snd (UpdateEmail rt s ctx id address w))) ->
        is_write c = true ->
        exists existing d1 err d2,
          UserPostgresStore.GetByID store ctx id (store_state w)
          = ((Some existing, None), d1)
          /\ UserPostgresStore.GetByEmail store ctx
               (UpdateEmailRequest.Email address) d1
             = ((None, Some err), d2)
          /\ errors_Is_sql_ErrNoRows err = true).
Proof.
  intros s store. subst s store. split.
  - run_service. rewrite validateUser_stamped.
    destruct (validateUser user); simpl;
      [made; intros c [] | ].
    destruct (bcrypt_GenerateFromPassword rt (Password user) bcrypt_DefaultCost)
      as [hashedPassword [failure | ]]; simpl;
      [made; intros c [] | ].
    run_postgres.
    match goal with
    | |- context [pool_QueryRow_Scan_User ?p ?c ?q ?a ?x] =>
        destruct (pool_QueryRow_Scan_User p c q a x) as [[row [err | ]] d] eqn:Hscan
    end; simpl.
    + destruct (errors_Is_sql_ErrNoRows err) eqn:Hrows; simpl.
      * intros c _ _. exists err, d. split; [reflexivity | exact Hrows].
      * made. intros c [<- | []]. discriminate.
    + made. intros c [<- | []]. discriminate.
  - run_service. run_postgres.
    match goal with
    | |- context [pool_QueryRow_Scan_User ?p ?c ?q ?a ?x] =>
        destruct (pool_QueryRow_Scan_User p c q a x)
          as [[existing [err | ]] d1] eqn:Hload
    end; simpl;
      [made; intros c [<- | []]; discriminate | ].
    destruct (is_empty (UpdateEmailRequest.Email address)); simpl;
      [made; intros c [<- | []]; discriminate | ].
    match goal with
    | |- context [pool_QueryRow_Scan_User ?p ?c ?q ?a ?x] =>
        destruct (pool_QueryRow_Scan_User p c q a x) as [[row [err | ]] d2] eqn:Hscan
    end; simpl.
    + destruct (errors_Is_sql_ErrNoRows err) eqn:Hrows; simpl.
      * intros c _ _. exists existing, d1, err, d2.
        split; [reflexivity | split; [now rewrite Hscan | exact Hrows]].
      * made. intros c [<- | [<- | []]]; discriminate.
    + made. intros c [<- | [<- | []]]; discriminate.
Qed.

End PostgresFacts.

(** [postgres_Create_leaves_hash_and_stamps] at work on a database without
    users: the record comes back numbered by the database, with the hash
    and the stamps. *)
Lemma postgres_Create_leaves_hash_and_stamps_witness :
  fst (Create example_runtime (postgres_service empty_db) context_Background
         john_doe fresh_world)
  = (mkUser "7" "John" "Doe" "john.doe@example.com" "$2a$10$password"
            1000%Z 1001%Z, None)
  /\ set_ID "" (fst (fst (Create example_runtime (postgres_service empty_db)
                            context_Background john_doe fresh_world)))
     = mkUser "" "John" "Doe" "john.doe@example.com" "$2a$10$password"
              1000%Z 1001%Z.
Proof.
  split; [vm_compute; reflexivity | ].
  refine (@postgres_Create_leaves_hash_and_stamps unit example_runtime empty_db
            context_Background john_doe fresh_world "$2a$10$password" _ eq_refl).
  vm_compute. reflexivity.
Defined.

(** * Further properties of validation *)

Section MoreValidation.
Import Regexp RegexpFacts.

Lemma string_length_append (s1 s2 : string) :
  String.length (s1 ++ s2) = String.length s1 + String.length s2.
Proof. induction s1 as [ | c s1 IH ]; simpl; congruence. Qed.

Lemma count_char_append (c : ascii) (s1 s2 : string) :
  count_char c (s1 ++ s2) = count_char c s1 + count_char c s2.
Proof. induction s1 as [ | c1 s1 IH ]; simpl; [reflexivity | rewrite IH; lia]. Qed.

Lemma count_char_absent (p : ascii -> bool) (c : ascii) (s : string) :
  p c = false -> all_chars p s = true -> count_char c s = 0.
Proof.
  intros Hc. induction s as [ | c1 s IH ]; simpl; [reflexivity | ].
  intros H. apply andb_true_iff in H as [H1 H2].
  destruct (Ascii.eqb_spec c c1) as [-> | _]; [congruence | ].
  now rewrite IH.
Qed.

Lemma all_chars_weaken (p q : ascii -> bool) (s : string) :
  (forall c, p c = true -> q c = true) ->
  all_chars p s = true -> all_chars q s = true.
Proof.
  intros Hpq. induction s as [ | c s IH ]; simpl; [reflexivity | ].
  intros H. apply andb_true_iff in H as [H1 H2].
  now rewrite (Hpq c H1), IH.
Qed.

Lemma nonempty_length (s : string) : s <> "" -> 1 <= String.length s.
Proof. destruct s; simpl; [congruence | lia]. Qed.

Lemma domain_in_local (c : ascii) : domain_char c = true -> local_part_char c = true.
Proof.
  destruct c as [[] [] [] [] [] [] [] []]; vm_compute; intros H;
    (reflexivity || discriminate H).
Qed.

Lemma letter_in_local (c : ascii) : is_letter c = true -> local_part_char c = true.
Proof.
  destruct c as [[] [] [] [] [] [] [] []]; vm_compute; intros H;
    (reflexivity || discriminate H).
Qed.

Lemma validateUser_accepts_MatchString (user : User) :
  validateUser user = None -> MatchString emailRegex (Email user) = true.
Proof.
  unfold validateUser.
  destruct (is_empty (Password user)); [discriminate | ].
  destruct (is_empty (FirstName user)); [discriminate | ].
  destruct (is_empty (LastName user)); [discriminate | ].
  destruct (is_empty (Email user)); [discriminate | ].
  destruct (MatchString emailRegex (Email user)); simpl; [reflexivity | discriminate].
Qed.

(** X12. An e-mail that [validateUser] accepts contains exactly one [@],
    has at least six bytes, and is made of ASCII letters, digits and the
    characters [. _ % + - @] only (so it holds no space, no control
    character and no byte of a multi-byte rune). *)
Theorem accepted_email_shape (user : User) :
  validateUser user = None ->
  count_char "@" (Email user) = 1
  /\ 6 <= String.length (Email user)
  /\ all_chars (fun c => local_part_char c || Ascii.eqb c "@") (Email user) = true.
Proof.
  intros Hvalid. apply validateUser_accepts_MatchString in Hvalid.
  apply MatchString_emailRegex in Hvalid
    as (l & d & t & -> & Hl1 & Hl2 & Hd1 & Hd2 & Ht1 & Ht2).
  assert (Hany : forall c, local_part_char c = true ->
                           local_part_char c || Ascii.eqb c "@" = true).
  { intros c ->. reflexivity. }
  split; [ | split ].
  - rewrite !count_char_append.
    rewrite (count_char_absent local_part_char "@" l eq_refl Hl2).
    rewrite (count_char_absent domain_char "@" d eq_refl Hd2).
    rewrite (count_char_absent is_letter "@" t eq_refl Ht2).
    reflexivity.
  - rewrite !string_length_append. simpl.
    pose proof (nonempty_length Hl1).
    pose proof (nonempty_length Hd1). lia.
  - rewrite !all_chars_append. simpl.
    rewrite (all_chars_weaken _ _ l Hany Hl2).
    rewrite (all_chars_weaken _ _ d
               (fun c H => Hany c (domain_in_local c H)) Hd2).
    rewrite (all_chars_weaken _ _ t
               (fun c H => Hany c (letter_in_local c H)) Ht2).
    reflexivity.
Qed.

Lemma class_invariant_deriv (f : ascii -> ascii) (c : ascii) (r : regexp) :
  class_invariant f r -> class_invariant f (deriv c r).
Proof.
  induction r as [ | | rs | r1 IH1 r2 IH2 | r1 IH1 r2 IH2 | r IH ]; simpl;
    try tauto.
  - intros _. destruct (in_class rs c); exact I.
  - intros [H1 H2]. destruct (nullable r1); simpl; tauto.
Qed.

Lemma deriv_invariant (f : ascii -> ascii) (c : ascii) (r : regexp) :
  class_invariant f r -> deriv (f c) r = deriv c r.
Proof.
  induction r as [ | | rs | r1 IH1 r2 IH2 | r1 IH1 r2 IH2 | r IH ]; simpl;
    try reflexivity.
  - intros H. now rewrite H.
  - intros [H1 H2]. now rewrite IH1, IH2.
  - intros [H1 H2]. now rewrite IH1, IH2.
  - intros H. now rewrite IH.
Qed.

Lemma matches_map_string (f : ascii -> ascii) (s : string) :
  forall r, class_invariant f r -> matches r (map_string f s) = matches r s.
Proof.
  induction s as [ | c s IH ]; intros r Hr; simpl; [reflexivity | ].
  rewrite deriv_invariant by assumption.
  apply IH. now apply class_invariant_deriv.
Qed.

Lemma emailRegex_ignores_case : class_invariant to_lower emailRegex.
Proof.
  unfold emailRegex. cbv zeta. simpl. repeat split;
    intros c; destruct c as [[] [] [] [] [] [] [] []]; reflexivity.
Qed.

Lemma is_empty_map_string (f : ascii -> ascii) (s : string) :
  is_empty (map_string f s) = is_empty s.
Proof. destruct s; reflexivity. Qed.

(** X13. The verdict of [validateUser] does not depend on the case of
    the letters of the e-mail: a record and the same record with its
    e-mail in lower case get the same result. *)
Theorem validateUser_ignores_email_case (user : User) :
  validateUser (set_Email (map_string to_lower (Email user)) user)
  = validateUser user.
Proof.
  unfold validateUser, MatchString. simpl.
  rewrite is_empty_map_string.
  now rewrite (@matches_map_string to_lower (Email user) emailRegex
                 emailRegex_ignores_case).
Qed.

End MoreValidation.

(** [accepted_email_shape] at work on the record of the tests. *)
Lemma accepted_email_shape_witness :
  count_char "@" "john.doe@example.com" = 1
  /\ 6 <= String.length "john.doe@example.com"
  /\ all_chars (fun c => local_part_char c || Ascii.eqb c "@")
               "john.doe@example.com" = true.
Proof.
  refine (accepted_email_shape john_doe _). vm_compute. reflexivity.
Defined.
